(** * VegaBaseView: lifecycle controller of an embedded Vega view

    A shallow embedding of
    [src/plugins/vis_type_vega/public/vega_view/vega_base_view.js]:
    the resource-loader URL gate, the time-range normaliser, the message
    sink, the index resolution used by the filter handlers, the
    expression-function dispatcher and the destroy-handler chain.

    JavaScript values are a small inductive type, exceptions are explicit
    completions, and the controller instance is a record threaded through
    a state-and-exception monad in which the state survives a throw (a
    JavaScript [throw] does not roll back earlier assignments). *)

From Stdlib Require Import String List ZArith Bool Arith Lia Permutation.
Import ListNotations.
Local Open Scope string_scope.

(** ** JavaScript values and completions *)

Module Js.

(** Thrown values.  The file only ever constructs [new Error(msg)]; a
    property read on [null]/[undefined] raises a [TypeError]. *)
Inductive exn : Type :=
| Error (message : string)
| TypeError (message : string).

Inductive completion (A : Type) : Type :=
| Normal (a : A)
| Throw (e : exn).
Arguments Normal {A} a.
Arguments Throw {A} e.

(** Values that reach the controller from a Vega spec or from the host.
    A symbol is identified by its allocation number: two [Symbol()] calls
    never return the same one. *)
#[warnings="-register-all"]
Inductive jsval : Type :=
| JUndefined
| JNull
| JBool (b : bool)
| JNum (z : Z)
| JStr (s : string)
| JDate (ms : Z)
| JSym (id : nat)
| JObj (props : list (string * jsval)).

Fixpoint own_prop (props : list (string * jsval)) (k : string) : jsval :=
  match props with
  | [] => JUndefined
  | (k', v) :: rest => if String.eqb k' k then v else own_prop rest k
  end.

(** [v.k] for the two keys the loader gate reads ([bypassToken], [url]):
    neither exists on a primitive's prototype, so a primitive yields
    [undefined]; [null] and [undefined] have no properties at all. *)
Definition get_prop (v : jsval) (k : string) : completion jsval :=
  match v with
  | JUndefined => Throw (TypeError ("Cannot read properties of undefined (reading '" ++ k ++ "')"))
  | JNull => Throw (TypeError ("Cannot read properties of null (reading '" ++ k ++ "')"))
  | JObj props => Normal (own_prop props k)
  | _ => Normal JUndefined
  end.

(** [v === Symbol#id]: strict equality against a symbol holds for that
    very symbol and for nothing else. *)
Definition is_symbol (id : nat) (v : jsval) : bool :=
  match v with
  | JSym id' => Nat.eqb id' id
  | _ => false
  end.

(** The double-quote character, as a string. *)
Definition dquote : string := String (Ascii.ascii_of_nat 34) EmptyString.

(** [args[n]], [undefined] past the end. *)
Definition arg (n : nat) (args : list jsval) : jsval := nth n args JUndefined.

(** Truthiness of an optional string ([undefined], or a string). *)
Definition truthy_str (o : option string) : bool :=
  match o with
  | Some s => negb (String.eqb s EmptyString)
  | None => false
  end.

End Js.
Import Js.

(** ** The loader gate ([createViewConfig], [bypassExternalUrlCheck]) *)

Module UrlAccessGate.

(** [const bypassToken = Symbol();] -- allocated once when the module is
    loaded, never exported. *)
Definition bypassToken_id : nat := 0.
Definition bypassToken : jsval := JSym bypassToken_id.

(** [export function bypassExternalUrlCheck(url) { return { url, bypassToken }; }] *)
Definition bypassExternalUrlCheck (url : jsval) : jsval :=
  JObj [("url", url); ("bypassToken", bypassToken)].

Definition externalUrlsAreNotEnabledErrorMessage : string :=
  "External URLs are not enabled. Add   vis_type_vega.enableExternalUrls: true   to opensearch_dashboards.yml".

Section Sanitize.
(** The loader options and the sanitised result belong to Vega. *)
Variables (options sanitized : Type).
(** [loader.sanitize.bind(loader)], the sanitizer being wrapped.  Its
    failure (a rejected promise) and the gate's own [throw] both reach
    the loader's [await] as a failure, hence one completion type. *)
Variable originalSanitize : jsval -> options -> completion sanitized.

(** [loader.sanitize = (uri, options) => { ... }], with
    [this._enableExternalUrls] passed in. *)
Definition sanitize (enableExternalUrls : bool) (uri : jsval) (opts : options)
  : completion sanitized :=
  match get_prop uri "bypassToken" with
  | Throw e => Throw e
  | Normal tok =>
      if is_symbol bypassToken_id tok then
        match get_prop uri "url" with
        | Throw e => Throw e
        | Normal inner => originalSanitize inner opts
        end
      else if negb enableExternalUrls then
        Throw (Error externalUrlsAreNotEnabledErrorMessage)
      else originalSanitize uri opts
  end.
End Sanitize.

End UrlAccessGate.

(** ** The time-range normaliser ([_parseTimeRange]) *)

Module TimeRange.

(** A [moment] object: whether it is valid, and its instant in
    milliseconds since the epoch. *)
Record Moment : Type := mkMoment { isValid : bool; valueOf : Z }.

(** [a.isAfter(b)]: false when either side is invalid, otherwise the
    comparison of the two instants. *)
Definition isAfter (a b : Moment) : bool :=
  isValid a && isValid b && (valueOf b <? valueOf a)%Z.

Inductive Mode : Type := absolute | relative.

(** What ends up in [from]/[to]: a parsed moment, or the caller's value
    handed back untouched. *)
Inductive TimeValue : Type :=
| Resolved (m : Moment)
| Raw (v : jsval).

Record Range : Type := mkRange { from : TimeValue; to : TimeValue; mode : Mode }.

(** The two parsers and the JSON printer are library code, taken here as
    they answer at one reading of the clock: [moment(x)];
    [dateMath.parse(x)], which returns [undefined] or a moment, or throws
    (it calls [text.substring] on any truthy value that is neither a
    moment nor a [Date], a number for one); and [JSON.stringify(x)]. *)
Class DateLib : Type := {
  moment : jsval -> Moment;
  dateMath_parse : jsval -> completion (option Moment);
  JSON_stringify : jsval -> string
}.

Section Parse.
Context {lib : DateLib}.

Definition timeValuesTypeErrorMessage (start end_ : jsval) : string :=
  "Error setting time filter: both time values must be either relative or absolute dates. "
    ++ ("start=" ++ JSON_stringify start) ++ ", " ++ ("end=" ++ JSON_stringify end_).

(** [if (reverse) { [from, to] = [to, from]; } return { from, to, mode };] *)
Definition finish (reverse : bool) (f t : TimeValue) (m : Mode) : Range :=
  if reverse then mkRange t f m else mkRange f t m.

Definition _parseTimeRange (start end_ : jsval) : completion Range :=
  let absStart := moment start in
  let absEnd := moment end_ in
  let isValidAbsStart := isValid absStart in
  let isValidAbsEnd := isValid absEnd in
  if isValidAbsStart && isValidAbsEnd then
    Normal (finish (isAfter absStart absEnd) (Resolved absStart) (Resolved absEnd) absolute)
  else
    match dateMath_parse start with
    | Throw e => Throw e
    | Normal startDate =>
        match dateMath_parse end_ with
        | Throw e => Throw e
        | Normal endDate =>
            match startDate, endDate with
            | Some startDate, Some endDate =>
                if negb (isValid startDate) || negb (isValid endDate) then
                  Throw (Error (timeValuesTypeErrorMessage start end_))
                else
                  let reverse := isAfter startDate endDate in
                  if isValidAbsStart || isValidAbsEnd then
                    Normal (finish reverse (Resolved startDate) (Resolved endDate) absolute)
                  else
                    Normal (finish reverse (Raw start) (Raw end_) relative)
            | _, _ => Throw (Error (timeValuesTypeErrorMessage start end_))
            end
        end
    end.

(** The two ways an input can parse: as an absolute timestamp
    ([moment(x).isValid()]), or through [dateMath.parse] (which accepts
    relative expressions, and absolute dates too), when that returns a
    valid moment. *)
Definition parses_absolute (x : jsval) : bool := isValid (moment x).
Definition parses_relative (x : jsval) : bool :=
  match dateMath_parse x with
  | Normal (Some m) => isValid m
  | _ => false
  end.
End Parse.

End TimeRange.
Import TimeRange.

(** ** The controller instance ([class VegaBaseView]) *)

Module Controller.

Inductive MessageKind : Type := warn | err.

(** One [<li class="vgaVis__message vgaVis__message--${type}">] item. *)
Record MessageRecord : Type := mkMessage { kind : MessageKind; text : string }.

(** The fields of [opts.vegaParser] that the controller reads. *)
Record Parser : Type := mkParser {
  containerDir : string;
  controlsDir : string;
  warnings : list string;
  error : option string;
  hideWarnings : bool;
  isVegaLite : bool;
  spec : jsval;
  vlspec : jsval;
  renderer : string
}.

Record IndexPattern : Type := mkIndexPattern { id : string }.

(** [opensearchFilters.buildQueryFilter(query, indexId, alias)]. *)
Record Filter : Type := buildQueryFilter { query : jsval; index : string; alias : jsval }.

(** The argument of one [this._applyFilter(...)] call. *)
Inductive Applied : Type :=
| QueryFilters (filters : list Filter)
| TimeFilter (m : Mode) (gte lte : TimeValue).

(** What a cleanup handler hands to [Promise.all]: a plain value, or a
    promise that eventually fulfils, rejects, or never settles. *)
Inductive settle : Type := Value | Fulfils | Rejects | Pending.

(** Cleanup handlers, as values the controller stores and calls.
    [DomCleanup] is the closure [init()] registers.  A [Closure] is a
    zero-argument function of a simple kind: it may call
    [this._addDestroyHandler] on further closures while it runs, and then
    it returns a value or throws, the same at every call.  Functions whose
    behaviour changes from call to call, or which call [this.destroy()]
    themselves, are treated in [General] below. *)
#[warnings="-register-all"]
Inductive handler : Type :=
| DomCleanup
| Closure (name : nat) (registers : list handler) (fin : completion settle).

(** A promise made by [Promise.all]: its identity and its inputs. *)
Record Promise : Type := mkPromise { pid : nat; awaited : list settle }.

Inductive Outcome : Type := Fulfilled | Rejected | Unsettled.

(** [Promise.all]: rejected as soon as one input rejects, fulfilled when
    all inputs are fulfilled (a plain value counts as fulfilled). *)
Definition is_rejects (x : settle) : bool :=
  match x with Rejects => true | _ => false end.
Definition is_pending (x : settle) : bool :=
  match x with Pending => true | _ => false end.
Definition outcome (p : Promise) : Outcome :=
  if existsb is_rejects (awaited p) then Rejected
  else if existsb is_pending (awaited p) then Unsettled
  else Fulfilled.

Record ViewConfig : Type := mkViewConfig { cfg_renderer : string }.

Record View : Type := mkView {
  _parser : option Parser;
  _view : option nat;
  _vegaViewConfig : option ViewConfig;
  _messages : option (list MessageRecord);
  _container : bool;
  _controls : bool;
  _destroyHandlers : option (list handler);
  _ongoingDestroy : option Promise;
  _initialized : bool;
  _enableExternalUrls : bool;
  (** the host side: [this._filterManager]'s filters, the calls made to
      [this._applyFilter], the view handles finalized, the flex direction
      given to [this._$parentEl] *)
  filters : list Filter;
  applied : list Applied;
  finalized : list nat;
  parent_direction : option string;
  (** bookkeeping: the cleanup handlers called so far (oldest first) and
      the number of promises allocated *)
  invoked : list handler;
  promises : nat
}.

(** [constructor(opts)] *)
Definition VegaBaseView (vegaParser : option Parser) (hostFilters : list Filter)
    (enableExternalUrls : bool) : View :=
  {| _parser := vegaParser; _view := None; _vegaViewConfig := None;
     _messages := None; _container := false; _controls := false;
     _destroyHandlers := Some []; _ongoingDestroy := None;
     _initialized := false; _enableExternalUrls := enableExternalUrls;
     filters := hostFilters; applied := []; finalized := [];
     parent_direction := None; invoked := []; promises := 0 |}.

Definition set_view (v : option nat) (s : View) : View :=
  mkView (_parser s) v (_vegaViewConfig s) (_messages s) (_container s) (_controls s)
    (_destroyHandlers s) (_ongoingDestroy s) (_initialized s) (_enableExternalUrls s)
    (filters s) (applied s) (finalized s) (parent_direction s) (invoked s) (promises s).
Definition set_vegaViewConfig (c : option ViewConfig) (s : View) : View :=
  mkView (_parser s) (_view s) c (_messages s) (_container s) (_controls s)
    (_destroyHandlers s) (_ongoingDestroy s) (_initialized s) (_enableExternalUrls s)
    (filters s) (applied s) (finalized s) (parent_direction s) (invoked s) (promises s).
Definition set_messages (m : option (list MessageRecord)) (s : View) : View :=
  mkView (_parser s) (_view s) (_vegaViewConfig s) m (_container s) (_controls s)
    (_destroyHandlers s) (_ongoingDestroy s) (_initialized s) (_enableExternalUrls s)
    (filters s) (applied s) (finalized s) (parent_direction s) (invoked s) (promises s).
Definition set_mounts (container controls : bool) (s : View) : View :=
  mkView (_parser s) (_view s) (_vegaViewConfig s) (_messages s) container controls
    (_destroyHandlers s) (_ongoingDestroy s) (_initialized s) (_enableExternalUrls s)
    (filters s) (applied s) (finalized s) (parent_direction s) (invoked s) (promises s).
Definition set_destroyHandlers (h : option (list handler)) (s : View) : View :=
  mkView (_parser s) (_view s) (_vegaViewConfig s) (_messages s) (_container s) (_controls s)
    h (_ongoingDestroy s) (_initialized s) (_enableExternalUrls s)
    (filters s) (applied s) (finalized s) (parent_direction s) (invoked s) (promises s).
Definition set_ongoingDestroy (p : option Promise) (s : View) : View :=
  mkView (_parser s) (_view s) (_vegaViewConfig s) (_messages s) (_container s) (_controls s)
    (_destroyHandlers s) p (_initialized s) (_enableExternalUrls s)
    (filters s) (applied s) (finalized s) (parent_direction s) (invoked s) (promises s).
Definition set_promises (n : nat) (s : View) : View :=
  mkView (_parser s) (_view s) (_vegaViewConfig s) (_messages s) (_container s) (_controls s)
    (_destroyHandlers s) (_ongoingDestroy s) (_initialized s) (_enableExternalUrls s)
    (filters s) (applied s) (finalized s) (parent_direction s) (invoked s) n.
Definition set_initialized (b : bool) (s : View) : View :=
  mkView (_parser s) (_view s) (_vegaViewConfig s) (_messages s) (_container s) (_controls s)
    (_destroyHandlers s) (_ongoingDestroy s) b (_enableExternalUrls s)
    (filters s) (applied s) (finalized s) (parent_direction s) (invoked s) (promises s).
Definition set_filters (f : list Filter) (s : View) : View :=
  mkView (_parser s) (_view s) (_vegaViewConfig s) (_messages s) (_container s) (_controls s)
    (_destroyHandlers s) (_ongoingDestroy s) (_initialized s) (_enableExternalUrls s)
    f (applied s) (finalized s) (parent_direction s) (invoked s) (promises s).
Definition set_applied (a : list Applied) (s : View) : View :=
  mkView (_parser s) (_view s) (_vegaViewConfig s) (_messages s) (_container s) (_controls s)
    (_destroyHandlers s) (_ongoingDestroy s) (_initialized s) (_enableExternalUrls s)
    (filters s) a (finalized s) (parent_direction s) (invoked s) (promises s).
Definition set_finalized (f : list nat) (s : View) : View :=
  mkView (_parser s) (_view s) (_vegaViewConfig s) (_messages s) (_container s) (_controls s)
    (_destroyHandlers s) (_ongoingDestroy s) (_initialized s) (_enableExternalUrls s)
    (filters s) (applied s) f (parent_direction s) (invoked s) (promises s).
Definition set_parent_direction (d : option string) (s : View) : View :=
  mkView (_parser s) (_view s) (_vegaViewConfig s) (_messages s) (_container s) (_controls s)
    (_destroyHandlers s) (_ongoingDestroy s) (_initialized s) (_enableExternalUrls s)
    (filters s) (applied s) (finalized s) d (invoked s) (promises s).
Definition set_invoked (l : list handler) (s : View) : View :=
  mkView (_parser s) (_view s) (_vegaViewConfig s) (_messages s) (_container s) (_controls s)
    (_destroyHandlers s) (_ongoingDestroy s) (_initialized s) (_enableExternalUrls s)
    (filters s) (applied s) (finalized s) (parent_direction s) l (promises s).

(** *** Statements that may throw, over the instance *)

Definition M (A : Type) : Type := View -> completion A * View.

Definition ret {A : Type} (a : A) : M A := fun s => (Normal a, s).
Definition throw {A : Type} (e : exn) : M A := fun s => (Throw e, s).
Definition bind {A B : Type} (m : M A) (k : A -> M B) : M B :=
  fun s => match m s with
           | (Normal a, s') => k a s'
           | (Throw e, s') => (Throw e, s')
           end.
Definition try_catch {A : Type} (body : M A) (handle : exn -> M A) : M A :=
  fun s => match body s with
           | (Normal a, s') => (Normal a, s')
           | (Throw e, s') => handle e s'
           end.
Definition gets {A : Type} (f : View -> A) : M A := fun s => (Normal (f s), s).
Definition modify (f : View -> View) : M unit := fun s => (Normal tt, f s).
Definition lift {A : Type} (c : completion A) : M A := fun s => (c, s).

Declare Scope js_scope.
Delimit Scope js_scope with js.
Notation "x <- c ;; k" := (bind c (fun x => k))
  (at level 61, c at next level, right associativity) : js_scope.
Notation "c ;; k" := (bind c (fun _ => k))
  (at level 61, right associativity) : js_scope.
Local Open Scope js_scope.

(** [for (const x of xs) body(x)] *)
Fixpoint for_of {A : Type} (xs : list A) (body : A -> M unit) : M unit :=
  match xs with
  | [] => ret tt
  | x :: rest => body x ;; for_of rest body
  end.

(** [this._parser.<field>]: a [TypeError] when no parser was given. *)
Definition this_parser : M Parser :=
  p <- gets _parser ;;
  match p with
  | Some parser => ret parser
  | None => throw (TypeError "Cannot read properties of undefined")
  end.


(** *** The message sink *)

(** The external collaborators: the index-pattern service, the helpers of
    [data_model/utils] and the host's filter manager. *)
Class Host : Type := {
  indexPatterns_find : string -> list IndexPattern;
  indexPatterns_getDefault : option IndexPattern;
  extractIndexPatternsFromSpec : jsval -> list IndexPattern;
  handleNonStringIndex : jsval -> option string;
  handleInvalidQuery : jsval -> jsval;
  handleInvalidDate : jsval -> jsval;
  formatErrorToStr : exn -> string;
  formatWarningToStr : list jsval -> string;
  compareFilters : Filter -> Filter -> bool;
  filterManager_removeFilter : Filter -> list Filter -> completion (list Filter)
}.

(** A method callable as [this[name](...args)]. *)
Definition Method : Type := list jsval -> M unit.

(** What a concrete instance adds to the base class: the
    [_initViewCustomizations] step that [init()] awaits, and the outcome of
    the property lookup [this[name]] ([None] when it is not callable). *)
Class Instance : Type := {
  _initViewCustomizations : M unit;
  this_method : string -> option Method
}.

Section Methods.
Context {lib : DateLib} {host : Host}.

(** The items of [this._$messages] (none before the list is created). *)
Definition items (s : View) : list MessageRecord :=
  match _messages s with
  | Some l => l
  | None => []
  end.

(** [_addMessage(type, text)]: creates the list on first use, then
    appends. *)
Definition _addMessage (type : MessageKind) (txt : string) : M unit :=
  modify (fun s => set_messages (Some (items s ++ [mkMessage type txt])%list) s).

Definition onError (e : exn) : M unit :=
  _addMessage err (formatErrorToStr e).

(** [if (!this._parser || !this._parser.hideWarnings) this._addMessage('warn', ...)] *)
Definition onWarn (args : list jsval) : M unit :=
  p <- gets _parser ;;
  match p with
  | Some parser =>
      if negb (hideWarnings parser)
      then _addMessage warn (formatWarningToStr args)
      else ret tt
  | None => _addMessage warn (formatWarningToStr args)
  end.

(** *** The destroy-handler chain *)

(** The body of the closure registered by [init()]. *)
Definition dom_cleanup (s : View) : View :=
  let s1 := set_mounts false false s in
  let s2 := set_messages None s1 in
  match _view s2 with
  | Some v => set_view None (set_finalized (finalized s2 ++ [v])%list s2)
  | None => set_view None s2
  end.

(** [_addDestroyHandler(handler)], given what calling a handler does:
    enqueue while the chain is there, call right away once it is [null]. *)
Section AddDestroyHandler.
Variable call : handler -> View -> completion settle * View.

Definition add_handler (h : handler) : M unit :=
  fun s =>
    match _destroyHandlers s with
    | Some hs => (Normal tt, set_destroyHandlers (Some (hs ++ [h])%list) s)
    | None =>
        match call h s with
        | (Normal _, s') => (Normal tt, s')
        | (Throw e, s') => (Throw e, s')
        end
    end.

(** The [this._addDestroyHandler(r)] calls of a running closure, in
    order; a throw out of one of them ends the closure. *)
Fixpoint register_all (rs : list handler) : M unit :=
  match rs with
  | [] => ret tt
  | r :: rest => add_handler r ;; register_all rest
  end.
End AddDestroyHandler.

(** Calling a handler, [v()]. *)
Fixpoint invoke (h : handler) (s : View) {struct h} : completion settle * View :=
  let s0 := set_invoked (invoked s ++ [h])%list s in
  match h with
  | DomCleanup => (Normal Value, dom_cleanup s0)
  | Closure _ registers fin =>
      match register_all invoke registers s0 with
      | (Normal _, s1) => (fin, s1)
      | (Throw e, s1) => (Throw e, s1)
      end
  end.

Definition _addDestroyHandler : handler -> M unit := add_handler invoke.

(** [handlers.map((v) => v())]: the callback is applied to the elements
    present when [map] starts, from index 0 upwards.  Handlers only ever
    [push] on the array, so those elements are the ones visited. *)
Fixpoint map_invoke (hs : list handler) : M (list settle) :=
  match hs with
  | [] => ret []
  | h :: rest =>
      r <- invoke h ;;
      rs <- map_invoke rest ;;
      ret (r :: rs)
  end.

(** [Promise.all(values)] allocates a new promise. *)
Definition Promise_all (values : list settle) : M Promise :=
  n <- gets promises ;;
  modify (set_promises (S n)) ;;
  ret (mkPromise n values).

(** [destroy()] *)
Definition destroy : M (option Promise) :=
  hs <- gets _destroyHandlers ;;
  match hs with
  | Some handlers =>
      values <- map_invoke handlers ;;
      p <- Promise_all values ;;
      modify (set_ongoingDestroy (Some p)) ;;
      modify (set_destroyHandlers None)
  | None => ret tt
  end ;;
  gets _ongoingDestroy.

(** [n] successive [destroy()] calls, with what each one returned. *)
Fixpoint destroy_times (n : nat) (s : View) : list (completion (option Promise)) * View :=
  match n with
  | O => ([], s)
  | S k =>
      let (r, s1) := destroy s in
      let (rs, s2) := destroy_times k s1 in
      (r :: rs, s2)
  end.

(** *** Index resolution and the filter handlers *)

Definition indexNotFoundErrorMessage (index : string) : string :=
  "Index " ++ (dquote ++ index ++ dquote) ++ " not found".

Definition unableToFindDefaultIndexErrorMessage : string :=
  "Unable to find default index".

(** [async findIndex(index)].  [if (index)] is false for [undefined] and
    for the empty string. *)
Definition findIndex (index : option string) : M string :=
  match index, truthy_str index with
  | Some title, true =>
      match indexPatterns_find title with
      | idxObj :: _ => ret (id idxObj)
      | [] => throw (Error (indexNotFoundErrorMessage title))
      end
  | _, _ =>
      p <- this_parser ;;
      match extractIndexPatternsFromSpec (if isVegaLite p then vlspec p else spec p) with
      | idxObj :: _ => ret (id idxObj)
      | [] =>
          match indexPatterns_getDefault with
          | Some defaultIdx => ret (id defaultIdx)
          | None => throw (Error unableToFindDefaultIndexErrorMessage)
          end
      end
  end.

(** [this._applyFilter(payload)] *)
Definition _applyFilter (payload : Applied) : M unit :=
  modify (fun s => set_applied (applied s ++ [payload])%list s).

(** [async addFilterHandler(query, index, alias)] *)
Definition addFilterHandler (q idx als : jsval) : M unit :=
  indexId <- findIndex (handleNonStringIndex idx) ;;
  let filter := buildQueryFilter (handleInvalidQuery q) indexId als in
  _applyFilter (QueryFilters [filter]).

(** [async removeFilterHandler(query, index)] *)
Definition removeFilterHandler (q idx : jsval) : M unit :=
  indexId <- findIndex (handleNonStringIndex idx) ;;
  let filterToRemove := buildQueryFilter (handleInvalidQuery q) indexId JUndefined in
  currentFilters <- gets filters ;;
  match find (fun f => compareFilters f filterToRemove) currentFilters with
  | None => ret tt
  | Some existingFilter =>
      try_catch
        (remaining <- lift (filterManager_removeFilter existingFilter currentFilters) ;;
         modify (set_filters remaining))
        onError
  end.

Definition removeAllFiltersHandler : M unit :=
  modify (set_filters []).

(** [setTimeFilterHandler(start, end)] *)
Definition setTimeFilterHandler (start end_ : jsval) : M unit :=
  r <- lift (_parseTimeRange (handleInvalidDate start) (handleInvalidDate end_)) ;;
  _applyFilter (TimeFilter (mode r) (from r) (to r)).

(** *** The expression-function dispatcher *)

(** [const vegaFunctions = { ... }].  A name inherited from
    [Object.prototype] (such as [constructor]) does give a truthy value,
    but no instance property is named by that value, so the dispatcher
    ends on the same error as for an absent name. *)
Definition vegaFunctions (funcName : string) : option string :=
  if String.eqb funcName "opensearchDashboardsAddFilter" then Some "addFilterHandler"
  else if String.eqb funcName "opensearchDashboardsRemoveFilter" then Some "removeFilterHandler"
  else if String.eqb funcName "opensearchDashboardsRemoveAllFilters" then Some "removeAllFiltersHandler"
  else if String.eqb funcName "opensearchDashboardsSetTimeFilter" then Some "setTimeFilterHandler"
  else None.

(** The four handler methods as [class VegaBaseView] declares them. *)
Definition VegaBaseView_method (name : string) : option Method :=
  if String.eqb name "addFilterHandler"
  then Some (fun args => addFilterHandler (arg 0 args) (arg 1 args) (arg 2 args))
  else if String.eqb name "removeFilterHandler"
  then Some (fun args => removeFilterHandler (arg 0 args) (arg 1 args))
  else if String.eqb name "removeAllFiltersHandler"
  then Some (fun _ => removeAllFiltersHandler)
  else if String.eqb name "setTimeFilterHandler"
  then Some (fun args => setTimeFilterHandler (arg 0 args) (arg 1 args))
  else None.

Definition functionIsNotDefinedForGraphErrorMessage (funcName : string) : string :=
  (funcName ++ "()") ++ " is not defined for this graph".

Context {inst : Instance}.

(** [async vegaFunctionsHandler(funcName, ...args)] *)
Definition vegaFunctionsHandler (funcName : string) (args : list jsval) : M unit :=
  try_catch
    (match vegaFunctions funcName with
     | Some handlerFunc =>
         match this_method handlerFunc with
         | Some f => f args
         | None => throw (Error (functionIsNotDefinedForGraphErrorMessage funcName))
         end
     | None => throw (Error (functionIsNotDefinedForGraphErrorMessage funcName))
     end)
    onError.

(** *** Initialisation *)

(** [createViewConfig()]; the loader it builds carries [config_sanitize]
    below. *)
Definition createViewConfig : M ViewConfig :=
  p <- this_parser ;;
  ret (mkViewConfig (renderer p)).

(** [async init()] *)
Definition init : M unit :=
  initialized <- gets _initialized ;;
  if (initialized : bool) then throw (Error EmptyString)
  else
    modify (set_initialized true) ;;
    try_catch
      (p <- this_parser ;;
       modify (set_parent_direction (Some (containerDir p))) ;;
       for_of (warnings p) (fun w => _addMessage warn w) ;;
       if truthy_str (error p) then
         match error p with
         | Some e => _addMessage err e
         | None => ret tt
         end
       else
         modify (set_mounts true true) ;;
         _addDestroyHandler DomCleanup ;;
         config <- createViewConfig ;;
         modify (set_vegaViewConfig (Some config)) ;;
         _initViewCustomizations)
      onError.

End Methods.

(** The sanitize step of the loader in [this._vegaViewConfig]. *)
Definition config_sanitize {options sanitized : Type}
    (originalSanitize : jsval -> options -> completion sanitized) (s : View)
    : jsval -> options -> completion sanitized :=
  UrlAccessGate.sanitize options sanitized originalSanitize (_enableExternalUrls s).

End Controller.
Import Controller.

(** ** Test doubles

    Concrete stand-ins for the external collaborators, used to run the
    embedding on examples. *)

Module Doubles.

Definition now_ms : Z := 1700000000000.

Definition iso (s : string) : option Z :=
  if String.eqb s "2020-01-01T00:00:00Z" then Some 1577836800000%Z
  else if String.eqb s "2021-03-04T05:06:07Z" then Some 1614834367000%Z
  else None.

Definition invalid_moment : Moment := mkMoment false 0.

(** Numbers are valid timestamps within the range of [Date]. *)
Definition stub_moment (x : jsval) : Moment :=
  match x with
  | JNum z =>
      if ((-8640000000000000 <=? z) && (z <=? 8640000000000000))%Z
      then mkMoment true z else invalid_moment
  | JDate ms => mkMoment true ms
  | JStr s => match iso s with Some z => mkMoment true z | None => invalid_moment end
  | _ => invalid_moment
  end.

(** Falsy values give [undefined], a [Date] gives its moment, a string
    is parsed, and any other value fails on [text.substring]. *)
Definition stub_dateMath_parse (x : jsval) : completion (option Moment) :=
  match x with
  | JStr s =>
      if String.eqb s EmptyString then Normal None
      else if String.eqb s "now" then Normal (Some (mkMoment true now_ms))
      else if String.eqb s "now-1h" then Normal (Some (mkMoment true (now_ms - 3600000)))
      else match iso s with
           | Some z => Normal (Some (mkMoment true z))
           | None => Normal (Some invalid_moment)
           end
  | JDate ms => Normal (Some (mkMoment true ms))
  | JUndefined | JNull | JBool false | JNum 0 => Normal None
  | _ => Throw (TypeError "text.substring is not a function")
  end.

Definition stub_stringify (x : jsval) : string :=
  match x with
  | JStr s => dquote ++ s ++ dquote
  | JNull => "null"
  | _ => "{}"
  end.

Definition stub_dates : DateLib :=
  {| moment := stub_moment;
     dateMath_parse := stub_dateMath_parse;
     JSON_stringify := stub_stringify |}.

Definition exn_message (e : exn) : string :=
  match e with
  | Error m => m
  | TypeError m => m
  end.

(** A host whose index-pattern service knows [logs] (id [logs-id]), with
    the given spec-derived patterns and default index. *)
Definition stub_host (fromSpec : list IndexPattern) (default : option IndexPattern) : Host :=
  {| indexPatterns_find := fun title =>
       if String.eqb title "logs" then [mkIndexPattern "logs-id"] else [];
     indexPatterns_getDefault := default;
     extractIndexPatternsFromSpec := fun _ => fromSpec;
     handleNonStringIndex := fun v => match v with JStr s => Some s | _ => None end;
     handleInvalidQuery := fun q => q;
     handleInvalidDate := fun d => d;
     formatErrorToStr := exn_message;
     formatWarningToStr := fun _ => "warning";
     compareFilters := fun a b => String.eqb (index a) (index b);
     filterManager_removeFilter := fun _ fs => Normal (tl fs) |}.

(** Three hosts: one whose spec names an index pattern, one with only a
    default index, one with neither. *)
Definition host1 : Host :=
  stub_host [mkIndexPattern "from-spec"] (Some (mkIndexPattern "default")).
Definition host2 : Host := stub_host [] (Some (mkIndexPattern "default")).
Definition host3 : Host := stub_host [] None.

Definition stub_parser (ws : list string) (hide : bool) : Parser :=
  {| containerDir := "column"; controlsDir := "row"; warnings := ws;
     error := None; hideWarnings := hide; isVegaLite := false;
     spec := JObj []; vlspec := JUndefined; renderer := "canvas" |}.

(** The base class on its own: nothing to customise, the four declared
    handler methods. *)
Definition base_instance {lib : DateLib} {host : Host} : Instance :=
  {| _initViewCustomizations := ret tt;
     this_method := VegaBaseView_method |}.

(** Cleanup closures: one that returns [undefined], one that returns a
    promise which rejects, one that throws, one that registers another
    handler while it runs. *)
Definition noop (name : nat) : handler := Closure name [] (Normal Value).
Definition rejecting (name : nat) : handler := Closure name [] (Normal Rejects).
Definition throwing (name : nat) : handler := Closure name [] (Throw (Error "boom")).
Definition registering (name : nat) (h : handler) : handler :=
  Closure name [h] (Normal Value).

(** A freshly constructed controller, and one on which the given handlers
    have been registered in order. *)
Definition fresh : View := VegaBaseView (Some (stub_parser [] false)) [] false.
Definition fresh_with (hs : list handler) : View :=
  snd (register_all invoke hs fresh).

(** A sanitizer that accepts every string and nothing else. *)
Definition stub_sanitize (uri : jsval) (_ : unit) : completion string :=
  match uri with
  | JStr s => Normal s
  | _ => Throw (Error "Sanitize failure, invalid URI")
  end.

End Doubles.

(** ** Auxiliary notions used by the statements *)

(** Values a spec author can write: pure JSON.  No symbol occurs in them. *)
Fixpoint is_json (v : jsval) : bool :=
  match v with
  | JNull | JBool _ | JNum _ | JStr _ => true
  | JUndefined | JDate _ | JSym _ => false
  | JObj props =>
      (fix all_json (ps : list (string * jsval)) : bool :=
         match ps with
         | [] => true
         | (_, x) :: rest => is_json x && all_json rest
         end) props
  end.

(** What calling a handler yields, and what it registers on the way. *)
Definition handler_result (h : handler) : completion settle :=
  match h with
  | DomCleanup => Normal Value
  | Closure _ _ fin => fin
  end.

Definition handler_registers (h : handler) : list handler :=
  match h with
  | DomCleanup => []
  | Closure _ registers _ => registers
  end.

Definition returns_normally (h : handler) : bool :=
  match handler_result h with
  | Normal _ => true
  | Throw _ => false
  end.

Definition returned (h : handler) : settle :=
  match handler_result h with
  | Normal v => v
  | Throw _ => Value
  end.

Definition settles_ok (v : settle) : bool :=
  match v with
  | Value | Fulfils => true
  | Rejects | Pending => false
  end.

(** The handlers [map] reaches: all of them up to and including the first
    one that throws. *)
Fixpoint reached (hs : list handler) : list handler :=
  match hs with
  | [] => []
  | h :: rest => if returns_normally h then h :: reached rest else [h]
  end.

(** What [map] returns over a list of handlers: the values they return,
    or the first throw. *)
Fixpoint map_result (hs : list handler) : completion (list settle) :=
  match hs with
  | [] => Normal []
  | h :: rest =>
      match handler_result h with
      | Throw e => Throw e
      | Normal v =>
          match map_result rest with
          | Normal vs => Normal (v :: vs)
          | Throw e => Throw e
          end
      end
  end.

(** ** Three properties in the specification's words

    These are the readings of the specification that the code does not
    follow as worded; they are refuted on examples below. *)

(** "Calling destroy() N>1 times executes every registered cleanup handler
    exactly once; all N calls resolve successfully": after [n] calls the
    handlers called are the registered ones, each once, and every call
    returned one and the same promise, which is fulfilled. *)
Definition spec_idempotent_destroy (n : nat) (s : View) : Prop :=
  forall hs, _destroyHandlers s = Some hs ->
    Permutation (invoked (snd (destroy_times n s))) (invoked s ++ hs)%list
    /\ exists p, Forall (fun r => r = Normal (Some p)) (fst (destroy_times n s))
                 /\ outcome p = Fulfilled.

(** "Destroy tears down in the reverse of registration order." *)
Definition spec_destroy_in_reverse (s : View) : Prop :=
  forall hs, _destroyHandlers s = Some hs ->
    invoked (snd (destroy s)) = (invoked s ++ rev hs)%list.

(** "Warnings are suppressed entirely if the active ParserResult requests
    warning suppression": running [step] appends no [warn] record. *)
Definition spec_warnings_suppressed (step : M unit) (s : View) : Prop :=
  forall p, _parser s = Some p -> hideWarnings p = true ->
    forall m, In m (items (snd (step s))) -> kind m = warn -> In m (items s).

(** ** View binding and resizing ([setView], [resize], [updateVegaSize]) *)

Module Rendering.
Local Open Scope js_scope.

(** Two more fields of [opts.vegaParser], read by [setView] and [resize]
    (as truth values). *)
Record ParserView : Type := mkParserView { tooltips : bool; useResize : bool }.

(** [this._view === view] on view handles; [null] and [undefined] are
    both "no handle" here, which differ only in which of the two ends up
    stored. *)
Definition same_handle (a b : option nat) : bool :=
  match a, b with
  | Some x, Some y => Nat.eqb x y
  | None, None => true
  | _, _ => false
  end.

(** [setView(view)].  The result is the handle whose [runAsync()] promise
    is returned, or [None] when the call returns [undefined].
    [tooltipCleanup] is the closure [() => tthandler.hideTooltip()];
    building the tooltip handler reads [this._$container[0]], which
    throws when there is no container. *)
Definition setView (pv : ParserView) (tooltipCleanup : handler) (view : option nat)
  : M (option nat) :=
  current <- gets _view ;;
  if same_handle current view then ret None
  else
    match current with
    | Some old => modify (fun s => set_finalized (finalized s ++ [old])%list s)
    | None => ret tt
    end ;;
    modify (set_view view) ;;
    match view with
    | Some v =>
        _ <- this_parser ;;
        (if tooltips pv then
           mounted <- gets _container ;;
           if (mounted : bool) then _addDestroyHandler tooltipCleanup
           else throw (TypeError "Cannot read properties of null (reading '0')")
         else ret tt) ;;
        ret (Some v)
    | None => ret None
    end.

(** A width and a height, in whole pixels. *)
Record Size : Type := mkSize { width : Z; height : Z }.

Definition heightExtraPadding : Z := 6.

(** [updateVegaSize(view)]: [container] is what jQuery measures on
    [this._$container], [view] the size the engine handle has; the result
    is the returned flag and the size the handle has afterwards. *)
Definition updateVegaSize (container view : Size) : bool * Size :=
  let w := Z.max 0 (width container) in
  let h := (Z.max 0 (height container) - heightExtraPadding)%Z in
  if negb (width view =? w)%Z || negb (height view =? h)%Z
  then (true, mkSize w h)
  else (false, view).

(** [resize()]: the handle whose [runAsync()] promise is returned (or
    [None]), and the size of the bound handle afterwards. *)
Definition resize (pv : ParserView) (container view : Size) (s : View)
  : completion (option nat * Size) :=
  match _parser s with
  | None => Throw (TypeError "Cannot read properties of undefined")
  | Some _ =>
      if useResize pv then
        match _view s with
        | Some v =>
            if _container s then
              let (changed, view') := updateVegaSize container view in
              Normal (if changed then Some v else None, view')
            else Throw (TypeError "Cannot read properties of null (reading 'width')")
        | None => Normal (None, view)
        end
      else Normal (None, view)
  end.

End Rendering.
Import Rendering.

(** ** Registration of the expression functions (module load) *)

Module ExpressionFunctions.

(** What Vega's registry holds under a name: some function defined
    elsewhere, or this module's forwarder for that name. *)
Inductive exprFn : Type :=
| Foreign (id : nat)
| handlerFwd (funcName : string).

(** The registry behind [vega.expressionFunction]. *)
Definition Registry : Type := list (string * exprFn).

(** [vega.expressionFunction(name)] *)
Fixpoint expressionFunction (r : Registry) (name : string) : option exprFn :=
  match r with
  | [] => None
  | (k, f) :: rest => if String.eqb k name then Some f else expressionFunction rest name
  end.

(** [Object.keys(vegaFunctions)] *)
Definition vegaFunctions_keys : list string :=
  [ "opensearchDashboardsAddFilter"; "opensearchDashboardsRemoveFilter";
    "opensearchDashboardsRemoveAllFilters"; "opensearchDashboardsSetTimeFilter" ].

(** The body of the loop: register the forwarder unless the name is
    taken. *)
Definition register (r : Registry) (funcName : string) : Registry :=
  match expressionFunction r funcName with
  | Some _ => r
  | None => (funcName, handlerFwd funcName) :: r
  end.

(** [for (const funcName of Object.keys(vegaFunctions)) { ... }] *)
Definition load (r : Registry) : Registry :=
  fold_left register vegaFunctions_keys r.

End ExpressionFunctions.

(** ** Sequences of calls *)

(** Calls on the lifecycle of one controller. *)
Inductive lifecycle_call : Type :=
| CallDestroy
| CallAddDestroyHandler (h : handler).

Definition after_call (s : View) (c : lifecycle_call) : View :=
  match c with
  | CallDestroy => snd (destroy s)
  | CallAddDestroyHandler h => snd (_addDestroyHandler h s)
  end.

Definition after_calls (cs : list lifecycle_call) (s : View) : View :=
  fold_left after_call cs s.




(** The controller fields that belong to the lifecycle and to the
    rendering: two states agree on them. *)
Definition same_lifecycle (s s' : View) : Prop :=
  _destroyHandlers s' = _destroyHandlers s
  /\ _ongoingDestroy s' = _ongoingDestroy s
  /\ promises s' = promises s
  /\ invoked s' = invoked s
  /\ _initialized s' = _initialized s
  /\ _view s' = _view s
  /\ finalized s' = finalized s
  /\ _container s' = _container s
  /\ _controls s' = _controls s.

(** The instant a normalised bound stands for: the moment itself, or what
    [dateMath.parse] makes of the raw value. *)
Definition instant_of {lib : DateLib} (v : TimeValue) : option Z :=
  match v with
  | Resolved m => Some (valueOf m)
  | Raw x =>
      match dateMath_parse x with
      | Normal (Some m) => Some (valueOf m)
      | _ => None
      end
  end.

(** A call that stays away from the lifecycle and adds at most one
    message -- none at all when it throws. *)
Definition quiet_call {host : Host} (body : M unit) (s : View) : Prop :=
  same_lifecycle s (snd (body s))
  /\ exists added,
       items (snd (body s)) = (items s ++ added)%list
       /\ length added <= 1
       /\ (forall e, fst (body s) = Throw e -> added = []).



(** The two shapes of a controller's lifecycle fields: the chain is there
    and no promise has been made yet, or the chain is [null] and the one
    promise (the first allocated) is in [_ongoingDestroy]. *)
Definition lifecycle_invariant (s : View) : Prop :=
  (exists hs, _destroyHandlers s = Some hs /\ _ongoingDestroy s = None /\ promises s = 0)
  \/ (_destroyHandlers s = None
      /\ exists pr, _ongoingDestroy s = Some pr /\ pid pr = 0 /\ promises s = 1).

Definition is_dom_cleanup (h : handler) : bool :=
  match h with
  | DomCleanup => true
  | Closure _ _ _ => false
  end.

(** The handle a controller has bound, as a list. *)
Definition bound (s : View) : list nat :=
  match _view s with
  | Some v => [v]
  | None => []
  end.


(** A subclass whose customisation step binds one view with [setView]. *)
Definition binding_instance {lib : DateLib} {host : Host}
    (pv : ParserView) (tooltipCleanup : handler) (v : nat) : Instance :=
  {| _initViewCustomizations :=
       bind (setView pv tooltipCleanup (Some v)) (fun _ => ret tt);
     this_method := VegaBaseView_method |}.

(** ** Sample controllers *)

Module Samples.
Import Doubles.

(** A parser result that carries a fatal error and one warning. *)
Definition failed_parser : Parser :=
  {| containerDir := "column"; controlsDir := "row";
     warnings := ["uses a deprecated option"];
     error := Some "Unexpected token"; hideWarnings := false; isVegaLite := false;
     spec := JObj []; vlspec := JUndefined; renderer := "canvas" |}.

Definition tooltips_on : ParserView := mkParserView true true.
Definition tooltips_off : ParserView := mkParserView false true.

(** A controller after [init()] with the base class alone, and one after
    [init()] with a subclass that binds view 4 (tooltips on, clean-up
    closure 7). *)
Definition initialised : View :=
  snd (init (host := host3) (inst := base_instance (lib := stub_dates) (host := host3))
         (VegaBaseView (Some (stub_parser ["uses a deprecated option"] false)) [] false)).

Definition rendering : View :=
  snd (init (host := host3)
         (inst := binding_instance (lib := stub_dates) (host := host3) tooltips_on (noop 7) 4)
         (VegaBaseView (Some (stub_parser [] false)) [] false)).

(** A controller holding one filter on the index [logs-id]. *)
Definition filtered : View :=
  VegaBaseView (Some (stub_parser [] false))
    [buildQueryFilter (JObj []) "logs-id" JUndefined] false.

(** A host whose filter manager refuses to remove anything. *)
Definition stubborn_host : Host :=
  {| indexPatterns_find := indexPatterns_find (Host := host1);
     indexPatterns_getDefault := indexPatterns_getDefault (Host := host1);
     extractIndexPatternsFromSpec := extractIndexPatternsFromSpec (Host := host1);
     handleNonStringIndex := handleNonStringIndex (Host := host1);
     handleInvalidQuery := handleInvalidQuery (Host := host1);
     handleInvalidDate := handleInvalidDate (Host := host1);
     formatErrorToStr := formatErrorToStr (Host := host1);
     formatWarningToStr := formatWarningToStr (Host := host1);
     compareFilters := compareFilters (Host := host1);
     filterManager_removeFilter := fun _ _ => Throw (Error "filter is pinned") |}.

End Samples.

(** ** The destroy-handler chain, for cleanup functions in general

    The closures of [handler] above always finish the same way and never
    call [this.destroy()].  Here a cleanup function is any function: it is
    known by a number, and what it does when it is called -- the calls it
    makes on the controller, then the value it returns or what it throws --
    is read from an oracle, by the number of handler calls made before this
    one.  A statement proved for every oracle covers functions whose
    behaviour depends on anything at all: their own state, the controller,
    the clock.  Only the lifecycle fields of the controller are kept. *)

Module General.

(** A call a cleanup function makes on the controller while it runs:
    [this.destroy()] or [this._addDestroyHandler(f)].  With [caught] the
    call sits in a [try] whose [catch] swallows what it throws, and the
    function goes on; without, a throw out of the call ends the
    function. *)
Inductive op : Type :=
| CallsDestroy (caught : bool)
| CallsAdd (f : nat) (caught : bool).

Definition calls_destroy (o : op) : bool :=
  match o with CallsDestroy _ => true | CallsAdd _ _ => false end.

Definition Behaviour : Type := nat -> nat -> list op * completion settle.

(** [this._destroyHandlers], [this._ongoingDestroy], the promises
    allocated so far and the cleanup functions called so far (oldest
    first). *)
Record Life : Type := mkLife {
  _destroyHandlers : option (list nat);
  _ongoingDestroy : option Promise;
  made : nat;
  called : list nat
}.

(** As the constructor leaves it. *)
Definition new_life : Life := mkLife (Some []) None 0 [].

Section Frames.
Variable behave : Behaviour.

(** One stack frame, given what [destroy()] and a handler call do in the
    frames below ([None]: the stack is exhausted). *)
Section Frame.
Variable destroy_below : Life -> option (completion (option Promise) * Life).
Variable call_below : nat -> Life -> option (completion settle * Life).

Definition _addDestroyHandler (f : nat) (s : Life) : option (completion unit * Life) :=
  match _destroyHandlers s with
  | Some fs =>
      Some (Normal tt, mkLife (Some (fs ++ [f])%list) (_ongoingDestroy s) (made s) (called s))
  | None =>
      match call_below f s with
      | Some (Normal _, s') => Some (Normal tt, s')
      | Some (Throw e, s') => Some (Throw e, s')
      | None => None
      end
  end.

(** The calls a running cleanup function makes, in order. *)
Fixpoint run (ops : list op) (s : Life) : option (completion unit * Life) :=
  match ops with
  | [] => Some (Normal tt, s)
  | CallsDestroy caught :: rest =>
      match destroy_below s with
      | Some (Normal _, s') => run rest s'
      | Some (Throw e, s') => if caught then run rest s' else Some (Throw e, s')
      | None => None
      end
  | CallsAdd f caught :: rest =>
      match _addDestroyHandler f s with
      | Some (Normal _, s') => run rest s'
      | Some (Throw e, s') => if caught then run rest s' else Some (Throw e, s')
      | None => None
      end
  end.

(** [handlers.map((v) => v())] over the elements present when [map]
    starts. *)
Fixpoint map_call (fs : list nat) (s : Life) : option (completion (list settle) * Life) :=
  match fs with
  | [] => Some (Normal [], s)
  | f :: rest =>
      match call_below f s with
      | Some (Normal v, s1) =>
          match map_call rest s1 with
          | Some (Normal vs, s2) => Some (Normal (v :: vs), s2)
          | other => other
          end
      | Some (Throw e, s1) => Some (Throw e, s1)
      | None => None
      end
  end.
End Frame.

(** Calling cleanup function [f], and [destroy()], with [fuel] stack
    frames to spare. *)
Fixpoint call (fuel : nat) (f : nat) (s : Life) {struct fuel}
  : option (completion settle * Life) :=
  match fuel with
  | O => None
  | S below =>
      let (ops, fin) := behave (length (called s)) f in
      let s0 := mkLife (_destroyHandlers s) (_ongoingDestroy s) (made s) (called s ++ [f])%list in
      match run (destroy below) (call below) ops s0 with
      | Some (Normal _, s1) => Some (fin, s1)
      | Some (Throw e, s1) => Some (Throw e, s1)
      | None => None
      end
  end
with destroy (fuel : nat) (s : Life) {struct fuel}
  : option (completion (option Promise) * Life) :=
  match fuel with
  | O => None
  | S below =>
      match _destroyHandlers s with
      | Some fs =>
          match map_call (call below) fs s with
          | Some (Normal values, s1) =>
              let p := mkPromise (made s1) values in
              Some (Normal (Some p), mkLife None (Some p) (S (made s1)) (called s1))
          | Some (Throw e, s1) => Some (Throw e, s1)
          | None => None
          end
      | None => Some (Normal (_ongoingDestroy s), s)
      end
  end.

(** [n] successive [destroy()] calls from outside. *)
Fixpoint destroy_times (fuel n : nat) (s : Life)
  : option (list (completion (option Promise)) * Life) :=
  match n with
  | O => Some ([], s)
  | S k =>
      match destroy fuel s with
      | Some (r, s1) =>
          match destroy_times fuel k s1 with
          | Some (rs, s2) => Some (r :: rs, s2)
          | None => None
          end
      | None => None
      end
  end.

(** What the functions of [fs] return when they are called one after the
    other, the first one as handler call number [i].  (Used where none of
    them throws; a throw is entered as [undefined].) *)
Fixpoint returns_from (i : nat) (fs : list nat) : list settle :=
  match fs with
  | [] => []
  | f :: rest =>
      match snd (behave i f) with
      | Normal v => v :: returns_from (S i) rest
      | Throw _ => Value :: returns_from (S i) rest
      end
  end.

(** A cleanup function that, whenever it is called, returns without
    throwing and has not called [this.destroy()]. *)
Definition well_behaved (f : nat) : Prop :=
  forall i, (exists v, snd (behave i f) = Normal v)
            /\ existsb calls_destroy (fst (behave i f)) = false.
End Frames.

(** The lifecycle fields are in one of two states: not torn down (a
    chain, no promise, none made) or torn down (no chain, the promise
    numbered 0, one made). *)
Definition coherent (s : Life) : Prop :=
  (_destroyHandlers s <> None /\ _ongoingDestroy s = None /\ made s = 0)
  \/ (_destroyHandlers s = None
      /\ (exists pr, _ongoingDestroy s = Some pr /\ pid pr = 0)
      /\ made s = 1).

(** What is asked of the controller from outside. *)
Inductive request : Type :=
| Destroys
| Registers (f : nat).

Definition after_request (behave : Behaviour) (fuel : nat) (c : request) (s : Life)
  : option Life :=
  match c with
  | Destroys => option_map snd (destroy behave fuel s)
  | Registers f => option_map snd (_addDestroyHandler (call behave fuel) f s)
  end.

Fixpoint after_requests (behave : Behaviour) (fuel : nat) (cs : list request) (s : Life)
  : option Life :=
  match cs with
  | [] => Some s
  | c :: rest =>
      match after_request behave fuel c s with
      | Some s1 => after_requests behave fuel rest s1
      | None => None
      end
  end.

(** A function that calls [this.destroy()] the first time it is called
    and does nothing afterwards; everything returns [undefined]. *)
Definition reentrant_once : Behaviour :=
  fun i f => (if Nat.eqb i 0 then [CallsDestroy false] else [], Normal Value).

(** Functions that each register one more function when called, and
    return [undefined] at an even call number and a promise that fulfils
    at an odd one. *)
Definition registering : Behaviour :=
  fun i f => ([CallsAdd (f + 10) false], Normal (if Nat.even i then Value else Fulfils)).

(** Function 2 throws at its first call (call number 1) and returns ever
    after; the others return. *)
Definition throws_once : Behaviour :=
  fun i f =>
    if Nat.eqb f 2 && Nat.eqb i 1
    then ([], Throw (Error "cleanup failed"%string))
    else ([], Normal Value).

(** Function 2 registers function 8 and throws, whenever it is called;
    the others return. *)
Definition throws_always : Behaviour :=
  fun i f =>
    if Nat.eqb f 2
    then ([CallsAdd 8 true], Throw (Error "cleanup failed"%string))
    else ([], Normal Value).

End General.

(** * Properties *)

Local Open Scope list_scope.

(** ** The loader gate *)

Section GateFacts.
Import UrlAccessGate.
Context {options sanitized : Type}.
Variable originalSanitize : jsval -> options -> completion sanitized.

Lemma is_symbol_spec (n : nat) (v : jsval) :
  is_symbol n v = true <-> v = JSym n.
Proof.
  destruct v; simpl; split; intros H; try discriminate.
  - apply Nat.eqb_eq in H. now subst.
  - injection H as ->. apply Nat.eqb_refl.
Qed.

Lemma is_symbol_other (n : nat) (v : jsval) :
  v <> JSym n -> is_symbol n v = false.
Proof.
  intros H. destruct (is_symbol n v) eqn:E; [|reflexivity].
  apply is_symbol_spec in E. contradiction.
Qed.

(** A property read on a JSON object never yields a symbol. *)
Lemma own_prop_json_not_symbol (props : list (string * jsval)) (k : string) (n : nat) :
  is_json (JObj props) = true -> is_symbol n (own_prop props k) = false.
Proof.
  induction props as [|[k' v] rest IH]; simpl; intros H; [reflexivity|].
  apply andb_prop in H as [Hv Hrest].
  destruct (String.eqb k' k).
  - destruct v; simpl in *; try reflexivity; discriminate.
  - now apply IH.
Qed.

(** Whatever JSON a spec supplies as a URL (short of [null]), the gate
    rejects it while external URLs are disabled: a token cannot be
    written down. *)
Lemma sanitize_rejects_json (uri : jsval) (opts : options) :
  is_json uri = true -> uri <> JNull ->
  sanitize options sanitized originalSanitize false uri opts = Throw (Error externalUrlsAreNotEnabledErrorMessage).
Proof.
  intros Hj Hn. unfold sanitize.
  destruct uri; simpl in *; try discriminate; try reflexivity; try contradiction.
  now rewrite own_prop_json_not_symbol.
Qed.

(** C2.  The gate of the loader's sanitize step.  For a URI whose
    [bypassToken] property reads as [tok]: when [tok] is the module's own
    symbol, the inner [url] is handed to the original sanitizer whether or
    not external URLs are enabled; when [tok] is anything else, the call
    fails with the "External URLs are not enabled" error if they are
    disabled, and is the original sanitizer's call on the URI itself if they
    are enabled.  In particular every value made by
    [bypassExternalUrlCheck] passes. *)
Theorem sanitize_checks_token_identity
    (uri tok : jsval) (opts : options)
    (Hread : get_prop uri "bypassToken" = Normal tok) :
  (tok = bypassToken ->
     exists inner, get_prop uri "url" = Normal inner /\
       forall enabled, sanitize options sanitized originalSanitize enabled uri opts = originalSanitize inner opts)
  /\ (tok <> bypassToken ->
        sanitize options sanitized originalSanitize false uri opts = Throw (Error externalUrlsAreNotEnabledErrorMessage)
        /\ sanitize options sanitized originalSanitize true uri opts = originalSanitize uri opts)
  /\ (forall url enabled,
        sanitize options sanitized originalSanitize enabled (bypassExternalUrlCheck url) opts = originalSanitize url opts).
Proof.
  unfold sanitize. repeat split.
  - intros ->.
    assert (Hu : exists inner, get_prop uri "url" = Normal inner).
    { destruct uri; simpl in *; try discriminate; eauto. }
    destruct Hu as [inner Hu]. exists inner. split; [exact Hu|].
    intros enabled. rewrite Hread, Hu. reflexivity.
  - rewrite Hread, (is_symbol_other _ _ H). reflexivity.
  - rewrite Hread, (is_symbol_other _ _ H). reflexivity.
Qed.

End GateFacts.

Lemma sanitize_checks_token_identity_witness :
  UrlAccessGate.sanitize unit string Doubles.stub_sanitize false
    (JObj [("url", JStr "https://example.org/a.json"); ("bypassToken", JSym 7)]) tt
  = Throw (Error UrlAccessGate.externalUrlsAreNotEnabledErrorMessage)
  /\ UrlAccessGate.sanitize unit string Doubles.stub_sanitize true
       (JStr "https://example.org/a.json") tt
     = Normal "https://example.org/a.json"
  /\ UrlAccessGate.sanitize unit string Doubles.stub_sanitize false
       (UrlAccessGate.bypassExternalUrlCheck (JStr "data.json")) tt
     = Normal "data.json".
Proof.
  split; [|split].
  - apply (sanitize_checks_token_identity Doubles.stub_sanitize
             (JObj [("url", JStr "https://example.org/a.json"); ("bypassToken", JSym 7)])
             (JSym 7) tt).
    + reflexivity.
    + discriminate.
  - change (Normal "https://example.org/a.json")
      with (Doubles.stub_sanitize (JStr "https://example.org/a.json") tt).
    apply (sanitize_checks_token_identity Doubles.stub_sanitize
             (JStr "https://example.org/a.json") JUndefined tt).
    + reflexivity.
    + discriminate.
  - change (Normal "data.json") with (Doubles.stub_sanitize (JStr "data.json") tt).
    apply (sanitize_checks_token_identity Doubles.stub_sanitize
             (JStr "x") JUndefined tt).
    reflexivity.
Defined.

(** ** The time-range normaliser *)

Section TimeRangeFacts.
Context {lib : DateLib}.

Lemma isAfter_asym (a b : Moment) : isAfter a b = true -> isAfter b a = false.
Proof.
  unfold isAfter. intros H.
  apply andb_prop in H as [_ H]. apply Z.ltb_lt in H.
  destruct (isValid b), (isValid a); simpl; try reflexivity.
  apply Z.ltb_ge. lia.
Qed.

Lemma isAfter_later (a b : Moment) : isAfter a b = true -> (valueOf b < valueOf a)%Z.
Proof.
  unfold isAfter. intros H. apply andb_prop in H as [_ H]. now apply Z.ltb_lt.
Qed.

(** The result when both inputs are valid absolute timestamps. *)
Lemma parseTimeRange_both_absolute (start end_ : jsval) :
  parses_absolute start = true -> parses_absolute end_ = true ->
  _parseTimeRange start end_ =
    Normal (finish (isAfter (moment start) (moment end_))
              (Resolved (moment start)) (Resolved (moment end_)) absolute).
Proof.
  unfold _parseTimeRange, parses_absolute. intros -> ->. reflexivity.
Qed.

(** A result reached through [dateMath.parse]: both calls returned valid
    moments, and these decide the order. *)
Lemma parseTimeRange_not_both_absolute (start end_ : jsval) (r : Range) :
  parses_absolute start && parses_absolute end_ = false ->
  _parseTimeRange start end_ = Normal r ->
  exists ds de,
    dateMath_parse start = Normal (Some ds) /\ dateMath_parse end_ = Normal (Some de) /\
    isValid ds = true /\ isValid de = true /\
    r = if parses_absolute start || parses_absolute end_
        then finish (isAfter ds de) (Resolved ds) (Resolved de) absolute
        else finish (isAfter ds de) (Raw start) (Raw end_) relative.
Proof.
  unfold _parseTimeRange, parses_absolute. intros Hb. rewrite Hb.
  destruct (dateMath_parse start) as [[ds|]|e]; try discriminate;
    destruct (dateMath_parse end_) as [[de|]|e']; try discriminate.
  destruct (isValid ds) eqn:Vs, (isValid de) eqn:Ve; try discriminate.
  cbn [negb orb]. intros H. exists ds, de.
  split; [reflexivity|]. split; [reflexivity|]. split; [exact Vs|]. split; [exact Ve|].
  destruct (isValid (moment start) || isValid (moment end_)); congruence.
Qed.

(** When [dateMath.parse] returns for both inputs, the normaliser fails
    exactly when the inputs are neither both valid absolute timestamps nor
    both turned into valid moments, and it fails with its own error. *)
Lemma parseTimeRange_fails_iff (start end_ : jsval) (sd ed : option Moment) :
  dateMath_parse start = Normal sd -> dateMath_parse end_ = Normal ed ->
  (parses_absolute start && parses_absolute end_ = false
   /\ parses_relative start && parses_relative end_ = false)
  <-> _parseTimeRange start end_ = Throw (Error (timeValuesTypeErrorMessage start end_)).
Proof.
  intros Hs He. unfold _parseTimeRange, parses_absolute, parses_relative, finish.
  rewrite Hs, He.
  destruct (isValid (moment start)), (isValid (moment end_)); simpl;
    destruct sd as [ds|], ed as [de|]; simpl;
    try destruct (isValid ds); try destruct (isValid de); simpl;
    try destruct (isAfter _ _); simpl;
    split; intros H; try discriminate; try reflexivity; try tauto;
    try (destruct H; discriminate); auto.
Qed.

(** A throw out of [dateMath.parse] leaves the normaliser as it is. *)
Lemma parseTimeRange_parser_throws (start end_ : jsval) (e : exn) :
  parses_absolute start && parses_absolute end_ = false ->
  dateMath_parse start = Throw e
  \/ (exists sd, dateMath_parse start = Normal sd /\ dateMath_parse end_ = Throw e) ->
  _parseTimeRange start end_ = Throw e.
Proof.
  unfold _parseTimeRange, parses_absolute. intros ->.
  intros [-> | (sd & -> & ->)]; reflexivity.
Qed.

(** C3.  On every pair the normaliser accepts, the mode is [relative]
    exactly when neither input is a valid absolute timestamp.  Then both
    inputs went through [dateMath.parse], which returned valid moments, and
    [from] and [to] are the two raw inputs themselves, exchanged exactly
    when the first parses after the second.  When both inputs are valid
    absolute timestamps, [from] and [to] are their two moments, exchanged
    exactly when the first is after the second.  When just one is, [from]
    and [to] are the valid moments [dateMath.parse] returned for the two
    inputs, exchanged likewise.  So whenever at least one input is a valid
    absolute timestamp the mode is [absolute] and both sides are valid
    moments. *)
Theorem parseTimeRange_mode (start end_ : jsval) (r : Range)
    (Hok : _parseTimeRange start end_ = Normal r) :
  (mode r = relative <->
     parses_absolute start = false /\ parses_absolute end_ = false)
  /\ (mode r = relative ->
        exists ds de,
          dateMath_parse start = Normal (Some ds) /\ dateMath_parse end_ = Normal (Some de)
          /\ isValid ds = true /\ isValid de = true
          /\ (isAfter ds de = false -> from r = Raw start /\ to r = Raw end_)
          /\ (isAfter ds de = true -> from r = Raw end_ /\ to r = Raw start))
  /\ (parses_absolute start = true -> parses_absolute end_ = true ->
        mode r = absolute
        /\ (isAfter (moment start) (moment end_) = false ->
              from r = Resolved (moment start) /\ to r = Resolved (moment end_))
        /\ (isAfter (moment start) (moment end_) = true ->
              from r = Resolved (moment end_) /\ to r = Resolved (moment start)))
  /\ (parses_absolute start <> parses_absolute end_ ->
        exists ds de,
          dateMath_parse start = Normal (Some ds) /\ dateMath_parse end_ = Normal (Some de)
          /\ isValid ds = true /\ isValid de = true
          /\ mode r = absolute
          /\ (isAfter ds de = false -> from r = Resolved ds /\ to r = Resolved de)
          /\ (isAfter ds de = true -> from r = Resolved de /\ to r = Resolved ds))
  /\ (parses_absolute start = true \/ parses_absolute end_ = true ->
        mode r = absolute
        /\ exists a b, from r = Resolved a /\ to r = Resolved b
                       /\ isValid a = true /\ isValid b = true).
Proof.
  destruct (parses_absolute start && parses_absolute end_) eqn:Hb.
  - apply andb_prop in Hb as [Hs He].
    rewrite (parseTimeRange_both_absolute _ _ Hs He) in Hok.
    injection Hok as <-. rewrite Hs, He. unfold finish.
    assert (Vs : isValid (moment start) = true) by exact Hs.
    assert (Ve : isValid (moment end_) = true) by exact He.
    destruct (isAfter (moment start) (moment end_)); cbn [mode from to].
    + split; [split; [discriminate | intros [? _]; discriminate]|].
      split; [discriminate|].
      split; [intros _ _; split; [reflexivity|]; split; [discriminate | auto]|].
      split; [intros H; now contradiction H|].
      intros _. split; [reflexivity|]. eexists _, _. eauto.
    + split; [split; [discriminate | intros [? _]; discriminate]|].
      split; [discriminate|].
      split; [intros _ _; split; [reflexivity|]; split; [auto | discriminate]|].
      split; [intros H; now contradiction H|].
      intros _. split; [reflexivity|]. eexists _, _. eauto.
  - destruct (parseTimeRange_not_both_absolute _ _ _ Hb Hok)
      as (ds & de & Hds & Hde & Vds & Vde & ->).
    assert (Hraw : forall m,
               (isAfter ds de = false ->
                  from (finish (isAfter ds de) (Raw start) (Raw end_) m) = Raw start
                  /\ to (finish (isAfter ds de) (Raw start) (Raw end_) m) = Raw end_)
               /\ (isAfter ds de = true ->
                     from (finish (isAfter ds de) (Raw start) (Raw end_) m) = Raw end_
                     /\ to (finish (isAfter ds de) (Raw start) (Raw end_) m) = Raw start)).
    { intros m. unfold finish. destruct (isAfter ds de); split; auto; discriminate. }
    assert (Hres : forall m,
               (isAfter ds de = false ->
                  from (finish (isAfter ds de) (Resolved ds) (Resolved de) m) = Resolved ds
                  /\ to (finish (isAfter ds de) (Resolved ds) (Resolved de) m) = Resolved de)
               /\ (isAfter ds de = true ->
                     from (finish (isAfter ds de) (Resolved ds) (Resolved de) m) = Resolved de
                     /\ to (finish (isAfter ds de) (Resolved ds) (Resolved de) m) = Resolved ds)).
    { intros m. unfold finish. destruct (isAfter ds de); split; auto; discriminate. }
    assert (Hmode : forall f t m, mode (finish (isAfter ds de) f t m) = m).
    { intros f t m. unfold finish. destruct (isAfter ds de); reflexivity. }
    assert (Hboth : exists a b,
               from (finish (isAfter ds de) (Resolved ds) (Resolved de) absolute) = Resolved a
               /\ to (finish (isAfter ds de) (Resolved ds) (Resolved de) absolute) = Resolved b
               /\ isValid a = true /\ isValid b = true).
    { unfold finish. destruct (isAfter ds de); cbn [from to]; eexists _, _; eauto. }
    destruct (parses_absolute start) eqn:Hs, (parses_absolute end_) eqn:He;
      cbn [andb orb] in *; try discriminate; rewrite Hmode.
    + split; [split; [discriminate | intros [? _]; discriminate]|].
      split; [discriminate|].
      split; [intros _ H; discriminate H|].
      split; [intros _; exists ds, de; destruct (Hres absolute); auto 10|].
      intros _. split; [reflexivity | exact Hboth].
    + split; [split; [discriminate | intros [_ ?]; discriminate]|].
      split; [discriminate|].
      split; [intros H; discriminate H|].
      split; [intros _; exists ds, de; destruct (Hres absolute); auto 10|].
      intros _. split; [reflexivity | exact Hboth].
    + split; [split; auto|].
      split; [intros _; exists ds, de; destruct (Hraw relative); auto 10|].
      split; [intros H; discriminate H|].
      split; [intros H; now contradiction H|].
      intros [H|H]; discriminate H.
Qed.

(** When neither input is a valid absolute timestamp, [dateMath.parse]
    returns for both and neither result is a valid moment, the normaliser
    throws the error whose message ends in
    [start=<JSON of start>, end=<JSON of end>]; the time filter handler
    throws the same error having changed nothing, and so has not called
    [this._applyFilter]. *)
Lemma malformed_time_range_rejected {host : Host} (start end_ : jsval) (s : View)
    (sd ed : option Moment)
    (Has : parses_absolute (handleInvalidDate start) = false)
    (Hae : parses_absolute (handleInvalidDate end_) = false)
    (Hsd : dateMath_parse (handleInvalidDate start) = Normal sd)
    (Hed : dateMath_parse (handleInvalidDate end_) = Normal ed)
    (Hrs : parses_relative (handleInvalidDate start) = false)
    (Hre : parses_relative (handleInvalidDate end_) = false) :
  let a := handleInvalidDate start in
  let b := handleInvalidDate end_ in
  let message :=
    ("Error setting time filter: both time values must be either relative or absolute dates. "
       ++ ("start=" ++ JSON_stringify a) ++ ", " ++ ("end=" ++ JSON_stringify b))%string in
  _parseTimeRange a b = Throw (Error message)
  /\ setTimeFilterHandler start end_ s = (Throw (Error message), s)
  /\ applied (snd (setTimeFilterHandler start end_ s)) = applied s.
Proof.
  intros a b message.
  assert (H : _parseTimeRange a b = Throw (Error message)).
  { apply (parseTimeRange_fails_iff a b sd ed Hsd Hed). subst a b. rewrite Has, Hrs. auto. }
  split; [exact H|].
  assert (H2 : setTimeFilterHandler start end_ s = (Throw (Error message), s)).
  { unfold setTimeFilterHandler, bind, lift. fold a b. rewrite H. reflexivity. }
  split; [exact H2|]. rewrite H2. reflexivity.
Qed.

(** C4.  What the code does where the specification asks for the
    descriptive error.  When neither input is a valid absolute timestamp and
    [dateMath.parse] throws on the first one -- as it does on a number --
    that input does not parse as a relative expression either, yet the
    normaliser ends on the parser's own error, not on the error naming the
    two inputs; the throw in lines 410-419 is never reached.  The time
    filter handler throws the same error and has changed nothing. *)
Theorem parser_error_preempts_time_values_error {host : Host}
    (start end_ : jsval) (s : View) (e : exn)
    (Has : parses_absolute (handleInvalidDate start) = false)
    (Hae : parses_absolute (handleInvalidDate end_) = false)
    (Hthrow : dateMath_parse (handleInvalidDate start) = Throw e) :
  let a := handleInvalidDate start in
  let b := handleInvalidDate end_ in
  parses_relative a = false
  /\ _parseTimeRange a b = Throw e
  /\ (e <> Error (timeValuesTypeErrorMessage a b) ->
        _parseTimeRange a b <> Throw (Error (timeValuesTypeErrorMessage a b)))
  /\ setTimeFilterHandler start end_ s = (Throw e, s).
Proof.
  intros a b.
  assert (H : _parseTimeRange a b = Throw e).
  { apply parseTimeRange_parser_throws; [|left; exact Hthrow].
    subst a. rewrite Has. reflexivity. }
  split; [unfold parses_relative; subst a; rewrite Hthrow; reflexivity|].
  split; [exact H|]. split.
  - intros Hne. rewrite H. intros [= ->]. now apply Hne.
  - unfold setTimeFilterHandler, bind, lift. fold a b. rewrite H. reflexivity.
Qed.

(** C7.  For two inputs that are both valid absolute timestamps, the first
    after the second, either order of the arguments gives the same result:
    mode [absolute], [from] the earlier moment and [to] the later one. *)
Theorem absolute_range_symmetric (A B : jsval)
    (HA : parses_absolute A = true) (HB : parses_absolute B = true)
    (Hafter : isAfter (moment A) (moment B) = true) :
  _parseTimeRange A B = Normal (mkRange (Resolved (moment B)) (Resolved (moment A)) absolute)
  /\ _parseTimeRange B A = _parseTimeRange A B
  /\ (valueOf (moment B) < valueOf (moment A))%Z.
Proof.
  rewrite (parseTimeRange_both_absolute _ _ HA HB), (parseTimeRange_both_absolute _ _ HB HA).
  rewrite Hafter, (isAfter_asym _ _ Hafter). unfold finish.
  repeat split. now apply isAfter_later.
Qed.

End TimeRangeFacts.

(** ** The destroy-handler chain *)

Section ChainFacts.

(** Induction over handlers, with the hypothesis on every registered
    closure. *)
Lemma handler_induction (P : handler -> Prop) :
  P DomCleanup ->
  (forall name registers fin, Forall P registers -> P (Closure name registers fin)) ->
  forall h, P h.
Proof.
  intros Hdom Hclo. fix IH 1. intros [|name registers fin].
  - exact Hdom.
  - apply Hclo. induction registers as [|r rest IHrest]; constructor.
    + apply IH.
    + exact IHrest.
Qed.

Lemma set_destroyHandlers_same (s : View) (hs : list handler) :
  _destroyHandlers s = Some hs -> set_destroyHandlers (Some hs) s = s.
Proof. destruct s; simpl; intros ->; reflexivity. Qed.

(** *** While the chain is there *)

Lemma addDestroyHandler_live (h : handler) (s : View) (hs : list handler) :
  _destroyHandlers s = Some hs ->
  _addDestroyHandler h s = (Normal tt, set_destroyHandlers (Some (hs ++ [h])) s).
Proof. unfold _addDestroyHandler, add_handler. intros ->. reflexivity. Qed.

Lemma register_all_live (rs : list handler) :
  forall (s : View) (hs : list handler),
    _destroyHandlers s = Some hs ->
    register_all invoke rs s = (Normal tt, set_destroyHandlers (Some (hs ++ rs)) s).
Proof.
  induction rs as [|r rest IH]; intros s hs Hs; simpl.
  - rewrite app_nil_r, set_destroyHandlers_same by exact Hs. reflexivity.
  - unfold bind. fold (_addDestroyHandler r s).
    rewrite (addDestroyHandler_live r s hs Hs).
    rewrite (IH _ (hs ++ [r])) by reflexivity.
    rewrite <- app_assoc. reflexivity.
Qed.

(** A handler called while the chain is there: it is logged, what it
    registers is pushed, nothing else about the chain changes. *)
Lemma invoke_live (h : handler) (s : View) (hs : list handler) :
  _destroyHandlers s = Some hs ->
  fst (invoke h s) = handler_result h
  /\ invoked (snd (invoke h s)) = invoked s ++ [h]
  /\ _destroyHandlers (snd (invoke h s)) = Some (hs ++ handler_registers h)
  /\ _ongoingDestroy (snd (invoke h s)) = _ongoingDestroy s
  /\ promises (snd (invoke h s)) = promises s.
Proof.
  intros Hs. destruct h as [|name registers fin].
  - simpl. unfold dom_cleanup. simpl. rewrite app_nil_r.
    destruct (_view s); simpl; auto.
  - simpl. rewrite (register_all_live registers _ hs) by exact Hs.
    destruct fin; simpl; auto.
Qed.

Lemma map_invoke_cons (h : handler) (rest : list handler) (s : View) :
  map_invoke (h :: rest) s =
    match invoke h s with
    | (Normal v, s1) =>
        match map_invoke rest s1 with
        | (Normal vs, s2) => (Normal (v :: vs), s2)
        | (Throw e, s2) => (Throw e, s2)
        end
    | (Throw e, s1) => (Throw e, s1)
    end.
Proof.
  simpl. unfold bind, ret.
  destruct (invoke h s) as [[v|e] s1]; [|reflexivity].
  destruct (map_invoke rest s1) as [[vs|e] s2]; reflexivity.
Qed.

Lemma map_invoke_live (hs : list handler) :
  forall (s : View) (hs0 : list handler),
    _destroyHandlers s = Some hs0 ->
    fst (map_invoke hs s) = map_result hs
    /\ invoked (snd (map_invoke hs s)) = invoked s ++ reached hs
    /\ (exists extra, _destroyHandlers (snd (map_invoke hs s)) = Some (hs0 ++ extra))
    /\ _ongoingDestroy (snd (map_invoke hs s)) = _ongoingDestroy s
    /\ promises (snd (map_invoke hs s)) = promises s.
Proof.
  induction hs as [|h rest IH]; intros s hs0 Hs.
  - simpl. rewrite app_nil_r. repeat split; auto. exists []. now rewrite app_nil_r.
  - destruct (invoke_live h s hs0 Hs) as (Hr & Hi & Hc & Ho & Hp).
    rewrite map_invoke_cons. cbn [map_result reached]. unfold returns_normally.
    destruct (invoke h s) as [r s1]. simpl in Hr, Hi, Hc, Ho, Hp.
    rewrite <- Hr. destruct r as [v|e].
    + destruct (IH s1 _ Hc) as (Hr' & Hi' & (extra & Hc') & Ho' & Hp').
      destruct (map_invoke rest s1) as [r' s2].
      simpl in Hr', Hi', Hc', Ho', Hp'. rewrite <- Hr'.
      destruct r' as [vs|e]; simpl;
        (split; [reflexivity|];
         split; [rewrite Hi', Hi, <- app_assoc; reflexivity|];
         split; [exists (handler_registers h ++ extra);
                 rewrite Hc', <- app_assoc; reflexivity|];
         split; congruence).
    + simpl. repeat split; auto. eauto.
Qed.

Lemma map_result_returns (hs : list handler) :
  forallb returns_normally hs = true -> map_result hs = Normal (map returned hs).
Proof.
  induction hs as [|h rest IH]; simpl; [reflexivity|].
  intros H. apply andb_prop in H as [Hh Hrest].
  unfold returns_normally, returned in *.
  destruct (handler_result h); [|discriminate].
  now rewrite (IH Hrest).
Qed.

Lemma reached_returns (hs : list handler) :
  forallb returns_normally hs = true -> reached hs = hs.
Proof.
  induction hs as [|h rest IH]; simpl; [reflexivity|].
  intros H. apply andb_prop in H as [-> Hrest]. now rewrite IH.
Qed.


Lemma outcome_fulfilled (p : Promise) :
  outcome p = Fulfilled <-> forallb settles_ok (awaited p) = true.
Proof.
  unfold outcome. induction (awaited p) as [|v vs IH]; simpl.
  - tauto.
  - destruct v; simpl; try exact IH.
    + split; discriminate.
    + split; [destruct (existsb is_rejects vs)|]; discriminate.
Qed.

(** [destroy()], statement by statement. *)
Lemma destroy_unfold (s : View) :
  destroy s =
    match _destroyHandlers s with
    | Some hs =>
        match map_invoke hs s with
        | (Normal values, s1) =>
            let p := mkPromise (promises s1) values in
            (Normal (Some p),
             set_destroyHandlers None
               (set_ongoingDestroy (Some p) (set_promises (S (promises s1)) s1)))
        | (Throw e, s1) => (Throw e, s1)
        end
    | None => (Normal (_ongoingDestroy s), s)
    end.
Proof.
  unfold destroy, bind, gets, modify, Promise_all, ret.
  destruct (_destroyHandlers s) as [hs|]; [|reflexivity].
  destruct (map_invoke hs s) as [[values|e] s1]; reflexivity.
Qed.

Lemma destroy_claimed (s : View) :
  _destroyHandlers s = None -> destroy s = (Normal (_ongoingDestroy s), s).
Proof. intros H. rewrite destroy_unfold, H. reflexivity. Qed.

Lemma destroy_times_claimed (n : nat) (s : View) :
  _destroyHandlers s = None ->
  destroy_times n s = (repeat (Normal (_ongoingDestroy s)) n, s).
Proof.
  intros H. induction n as [|n IH]; simpl; [reflexivity|].
  rewrite (destroy_claimed s H), IH. reflexivity.
Qed.

(** The first [destroy()] on a chain of handlers that all return. *)
Lemma destroy_live (s : View) (hs : list handler) :
  _destroyHandlers s = Some hs ->
  forallb returns_normally hs = true ->
  let p := mkPromise (promises s) (map returned hs) in
  fst (destroy s) = Normal (Some p)
  /\ invoked (snd (destroy s)) = invoked s ++ hs
  /\ _destroyHandlers (snd (destroy s)) = None
  /\ _ongoingDestroy (snd (destroy s)) = Some p.
Proof.
  intros Hs Hret p.
  destruct (map_invoke_live hs s hs Hs) as (Hr & Hi & _ & _ & Hp).
  rewrite destroy_unfold, Hs.
  rewrite (map_result_returns hs Hret) in Hr. rewrite (reached_returns hs Hret) in Hi.
  destruct (map_invoke hs s) as [r s1]. simpl in Hr, Hi, Hp. subst r.
  simpl. rewrite Hp. auto.
Qed.

(** The handlers [destroy()] calls, whether or not one of them throws. *)
Lemma destroy_invoked (s : View) (hs : list handler) :
  _destroyHandlers s = Some hs ->
  invoked (snd (destroy s)) = invoked s ++ reached hs.
Proof.
  intros Hs.
  destruct (map_invoke_live hs s hs Hs) as (_ & Hi & _).
  rewrite destroy_unfold, Hs.
  destruct (map_invoke hs s) as [[values|e] s1]; exact Hi.
Qed.

(** *** Once the chain is [null] *)

Lemma dom_cleanup_chain (s : View) :
  _destroyHandlers (dom_cleanup s) = _destroyHandlers s
  /\ _ongoingDestroy (dom_cleanup s) = _ongoingDestroy s
  /\ promises (dom_cleanup s) = promises s
  /\ invoked (dom_cleanup s) = invoked s.
Proof. unfold dom_cleanup. simpl. destruct (_view s); simpl; auto. Qed.

(** A handler called once the chain is [null] -- together with whatever
    it registers, which is then called on the spot as well -- leaves the
    chain [null] and the completion promise untouched. *)
Lemma invoke_claimed (h : handler) :
  forall s : View,
    _destroyHandlers s = None ->
    _destroyHandlers (snd (invoke h s)) = None
    /\ _ongoingDestroy (snd (invoke h s)) = _ongoingDestroy s
    /\ promises (snd (invoke h s)) = promises s
    /\ exists rest, invoked (snd (invoke h s)) = invoked s ++ h :: rest.
Proof.
  induction h as [|name registers fin IH] using handler_induction; intros s Hs.
  - simpl. destruct (dom_cleanup_chain (set_invoked (invoked s ++ [DomCleanup]) s))
      as (Hc & Ho & Hp & Hi).
    rewrite Hc, Ho, Hp, Hi. simpl. repeat split; auto. exists []. reflexivity.
  - set (h := Closure name registers fin).
    assert (Hreg : forall s1 : View,
               _destroyHandlers s1 = None ->
               _destroyHandlers (snd (register_all invoke registers s1)) = None
               /\ _ongoingDestroy (snd (register_all invoke registers s1)) = _ongoingDestroy s1
               /\ promises (snd (register_all invoke registers s1)) = promises s1
               /\ exists rest, invoked (snd (register_all invoke registers s1))
                               = invoked s1 ++ rest).
    { clear s Hs h. induction IH as [|r rest Hr _ IHrest]; intros s1 Hs1.
      - simpl. repeat split; auto. exists []. now rewrite app_nil_r.
      - simpl. unfold bind, add_handler. rewrite Hs1.
        destruct (Hr s1 Hs1) as (Hc & Ho & Hp & (t1 & Hi)).
        destruct (invoke r s1) as [[v|e] s2]; simpl in Hc, Ho, Hp, Hi.
        + destruct (IHrest s2 Hc) as (Hc' & Ho' & Hp' & (t2 & Hi')).
          repeat split; try congruence.
          exists ((r :: t1) ++ t2). rewrite Hi', Hi, <- app_assoc. reflexivity.
        + simpl. repeat split; auto. eauto. }
    destruct (Hreg (set_invoked (invoked s ++ [h]) s) Hs) as (Hc & Ho & Hp & (t & Hi)).
    simpl. fold h.
    destruct (register_all invoke registers (set_invoked (invoked s ++ [h]) s))
      as [[u|e] s1]; simpl in *;
      (repeat split; auto; exists t; rewrite Hi, <- app_assoc; reflexivity).
Qed.

Lemma addDestroyHandler_claimed (h : handler) (s : View) :
  _destroyHandlers s = None ->
  snd (_addDestroyHandler h s) = snd (invoke h s).
Proof.
  unfold _addDestroyHandler, add_handler. intros ->.
  destruct (invoke h s) as [[v|e] s1]; reflexivity.
Qed.

(** *** Repeated [destroy()], for cleanup functions in general *)

Lemma general_run_no_destroy (behave : General.Behaviour)
    (D : General.Life -> option (completion (option Promise) * General.Life))
    (C : nat -> General.Life -> option (completion settle * General.Life))
    (ops : list General.op) :
  existsb General.calls_destroy ops = false ->
  forall (s : General.Life) (fs : list nat),
    General._destroyHandlers s = Some fs ->
    exists added,
      General.run D C ops s
      = Some (Normal tt,
              General.mkLife (Some (fs ++ added)) (General._ongoingDestroy s)
                             (General.made s) (General.called s)).
Proof.
  induction ops as [|o ops IH]; intros Hno s fs Hchain.
  - exists []. rewrite app_nil_r. destruct s; simpl in *. now subst.
  - destruct o as [caught|f caught]; simpl in Hno; [discriminate|].
    cbn [General.run]. unfold General._addDestroyHandler. rewrite Hchain.
    destruct (IH Hno (General.mkLife (Some (fs ++ [f])) (General._ongoingDestroy s)
                                      (General.made s) (General.called s))
                 (fs ++ [f]) eq_refl) as (added & Hrun).
    rewrite Hrun. simpl. exists (f :: added).
    rewrite <- app_assoc. reflexivity.
Qed.

Lemma general_call_well_behaved (behave : General.Behaviour) (below f : nat)
    (s : General.Life) (fs : list nat) :
  General._destroyHandlers s = Some fs ->
  General.well_behaved behave f ->
  exists v added,
    snd (behave (length (General.called s)) f) = Normal v
    /\ General.call behave (S below) f s
       = Some (Normal v,
               General.mkLife (Some (fs ++ added)) (General._ongoingDestroy s)
                              (General.made s) (General.called s ++ [f])).
Proof.
  intros Hchain Hwell.
  destruct (Hwell (length (General.called s))) as ((v & Hv) & Hno).
  cbn [General.call].
  destruct (behave (length (General.called s)) f) as [ops fin]. simpl in Hv, Hno. subst fin.
  destruct (general_run_no_destroy behave (General.destroy behave below)
              (General.call behave below) ops Hno
              (General.mkLife (General._destroyHandlers s) (General._ongoingDestroy s) (General.made s)
                              (General.called s ++ [f]))
              fs Hchain) as (added & Hrun).
  rewrite Hrun. simpl. exists v, added. split; reflexivity.
Qed.

Lemma general_map_call_well_behaved (behave : General.Behaviour) (below : nat)
    (gs : list nat) :
  (forall f, In f gs -> General.well_behaved behave f) ->
  forall (s : General.Life) (fs : list nat),
    General._destroyHandlers s = Some fs ->
    exists added,
      General.map_call (General.call behave (S below)) gs s
      = Some (Normal (General.returns_from behave (length (General.called s)) gs),
              General.mkLife (Some (fs ++ added)) (General._ongoingDestroy s)
                             (General.made s) (General.called s ++ gs)).
Proof.
  induction gs as [|g gs IH]; intros Hwell s fs Hchain.
  - exists []. rewrite !app_nil_r. destruct s; simpl in *. now subst.
  - destruct (general_call_well_behaved behave below g s fs Hchain (Hwell g (or_introl eq_refl)))
      as (v & added & Hv & Hcall).
    cbn [General.map_call General.returns_from]. rewrite Hcall, Hv.
    destruct (IH (fun f Hf => Hwell f (or_intror Hf))
                 (General.mkLife (Some (fs ++ added)) (General._ongoingDestroy s)
                                 (General.made s) (General.called s ++ [g]))
                 (fs ++ added) eq_refl) as (added' & Hmap).
    rewrite Hmap. cbn [General.called General._ongoingDestroy General.made].
    rewrite length_app, Nat.add_1_r, <- !app_assoc. simpl.
    exists (added ++ added'). reflexivity.
Qed.

Lemma general_destroy_claimed (behave : General.Behaviour) (below : nat) (s : General.Life) :
  General._destroyHandlers s = None ->
  General.destroy behave (S below) s = Some (Normal (General._ongoingDestroy s), s).
Proof. intros H. cbn [General.destroy]. now rewrite H. Qed.

Lemma general_destroy_times_claimed (behave : General.Behaviour) (below n : nat)
    (s : General.Life) :
  General._destroyHandlers s = None ->
  General.destroy_times behave (S below) n s
  = Some (repeat (Normal (General._ongoingDestroy s)) n, s).
Proof.
  intros H. induction n as [|n IH].
  - reflexivity.
  - cbn [General.destroy_times]. rewrite (general_destroy_claimed behave below s H), IH.
    reflexivity.
Qed.

Lemma general_destroy_live (behave : General.Behaviour) (below : nat)
    (s : General.Life) (fs : list nat) :
  General._destroyHandlers s = Some fs ->
  (forall f, In f fs -> General.well_behaved behave f) ->
  let p := mkPromise (General.made s)
             (General.returns_from behave (length (General.called s)) fs) in
  General.destroy behave (S (S below)) s
  = Some (Normal (Some p),
          General.mkLife None (Some p) (S (General.made s)) (General.called s ++ fs)).
Proof.
  intros Hchain Hwell p.
  destruct (general_map_call_well_behaved behave below fs Hwell s fs Hchain) as (added & Hmap).
  change (General.destroy behave (S (S below)) s)
    with (match General._destroyHandlers s with
          | Some fs0 =>
              match General.map_call (General.call behave (S below)) fs0 s with
              | Some (Normal values, s1) =>
                  Some (Normal (Some (mkPromise (General.made s1) values)),
                        General.mkLife None (Some (mkPromise (General.made s1) values))
                                       (S (General.made s1)) (General.called s1))
              | Some (Throw e, s1) => Some (Throw e, s1)
              | None => None
              end
          | None => Some (Normal (General._ongoingDestroy s), s)
          end).
  rewrite Hchain, Hmap. reflexivity.
Qed.

(** C1, as amended.  Cleanup functions are arbitrary here: what one does
    may differ from call to call, and it may call back into the
    controller.  Take a controller whose chain holds functions that,
    whenever called, return without throwing and have not called
    [destroy()] (they may register further functions).  Then any number
    [n+1 >= 1] of [destroy()] calls returns, and calls the functions that
    were in the chain at the first call once each, in the first call; the
    chain is [null] once the first call has returned, and stays so; every
    call returns the same promise, made from what these functions
    returned, which is fulfilled exactly when each of these values is a
    plain value or a promise that fulfils, and rejected exactly when one of
    them is a promise that rejects. *)
Theorem destroy_idempotent (behave : General.Behaviour) (s : General.Life)
    (fs : list nat) (n below : nat)
    (Hchain : General._destroyHandlers s = Some fs)
    (Hwell : forall f, In f fs -> General.well_behaved behave f) :
  let values := General.returns_from behave (length (General.called s)) fs in
  let p := mkPromise (General.made s) values in
  let done := General.mkLife None (Some p) (S (General.made s)) (General.called s ++ fs) in
  General.destroy behave (S (S below)) s = Some (Normal (Some p), done)
  /\ General.destroy_times behave (S (S below)) (S n) s
     = Some (repeat (Normal (Some p)) (S n), done)
  /\ (outcome p = Fulfilled <-> forallb settles_ok values = true)
  /\ (outcome p = Rejected <-> existsb is_rejects values = true).
Proof.
  intros values p done.
  pose proof (general_destroy_live behave below s fs Hchain Hwell) as Hfirst.
  cbv zeta in Hfirst. fold values in Hfirst. fold p in Hfirst. fold done in Hfirst.
  split; [exact Hfirst|]. split.
  - cbn [General.destroy_times]. rewrite Hfirst.
    rewrite (general_destroy_times_claimed behave (S below) n done eq_refl).
    reflexivity.
  - split; [apply (outcome_fulfilled p)|].
    unfold outcome. cbn [awaited p].
    destruct (existsb is_rejects values).
    + split; reflexivity.
    + destruct (existsb is_pending values); split; discriminate.
Qed.

(** The hypothesis on the cleanup functions is needed: a function that
    calls [destroy()] while the first [destroy()] is calling it is called
    a second time by the inner call, and the two calls return two
    promises. *)
Lemma reentrant_cleanup_runs_twice :
  General.destroy General.reentrant_once 4 (General.mkLife (Some [7]) None 0 [])
  = Some (Normal (Some (mkPromise 1 [Value])),
          General.mkLife None (Some (mkPromise 1 [Value])) 2 [7; 7]).
Proof. reflexivity. Qed.

(** *** Repeated [destroy()], for the closures of [handler] *)

(** The same for the closures of [handler], which may register further
    handlers while they run and do not call [destroy()] themselves.  On
    a controller whose registered handlers all return (none throws), any
    number [n+1 >= 1] of [destroy()] calls calls the handlers that were in
    the chain at the first call once each, all of them in that first call;
    the chain is [null] once the first call has returned, and stays so;
    every call returns the same promise, made from the handlers' return
    values, which is fulfilled exactly when each of these values is a plain
    value or a promise that fulfils, and rejected exactly when one of them
    is a promise that rejects. *)
Lemma destroy_idempotent_closures (s : View) (hs : list handler) (n : nat)
    (Hchain : _destroyHandlers s = Some hs)
    (Hret : forallb returns_normally hs = true) :
  let p := mkPromise (promises s) (map returned hs) in
  fst (destroy_times (S n) s) = repeat (Normal (Some p)) (S n)
  /\ invoked (snd (destroy_times (S n) s)) = invoked s ++ hs
  /\ _destroyHandlers (snd (destroy s)) = None
  /\ _destroyHandlers (snd (destroy_times (S n) s)) = None
  /\ (outcome p = Fulfilled <-> forallb settles_ok (map returned hs) = true)
  /\ (outcome p = Rejected <-> existsb is_rejects (map returned hs) = true).
Proof.
  intros p.
  destruct (destroy_live s hs Hchain Hret) as (Hr & Hi & Hc & Ho).
  cbn [destroy_times].
  destruct (destroy s) as [r s1]. simpl in Hr, Hi, Hc, Ho. subst r.
  rewrite (destroy_times_claimed n s1 Hc), Ho. simpl.
  split; [reflexivity|]. split; [exact Hi|]. split; [exact Hc|]. split; [exact Hc|].
  split; [apply (outcome_fulfilled p)|].
  unfold outcome. cbn [awaited p].
  destruct (existsb is_rejects (map returned hs)).
  - split; reflexivity.
  - destruct (existsb is_pending (map returned hs)); split; discriminate.
Qed.

(** C6, as amended.  Registration appends to the chain, and [destroy()]
    calls the handlers of the chain from the first registered to the last,
    stopping after the first one that throws; when none throws they are all
    called, in registration order. *)
Theorem destroy_runs_in_registration_order (s : View) (hs : list handler)
    (Hchain : _destroyHandlers s = Some hs) :
  (forall h, _destroyHandlers (snd (_addDestroyHandler h s)) = Some (hs ++ [h]))
  /\ invoked (snd (destroy s)) = invoked s ++ reached hs
  /\ (forallb returns_normally hs = true -> invoked (snd (destroy s)) = invoked s ++ hs).
Proof.
  split; [|split].
  - intros h. now rewrite (addDestroyHandler_live h s hs Hchain).
  - now apply destroy_invoked.
  - intros Hret. rewrite (destroy_invoked s hs Hchain), (reached_returns hs Hret).
    reflexivity.
Qed.


End ChainFacts.

Lemma destroy_idempotent_closures_witness :
  fst (destroy_times 2 (Doubles.fresh_with [Doubles.noop 1; Doubles.noop 2]))
    = [Normal (Some (mkPromise 0 [Value; Value])); Normal (Some (mkPromise 0 [Value; Value]))]
  /\ invoked (snd (destroy_times 2 (Doubles.fresh_with [Doubles.noop 1; Doubles.noop 2])))
     = [Doubles.noop 1; Doubles.noop 2].
Proof.
  pose proof (destroy_idempotent_closures
                (Doubles.fresh_with [Doubles.noop 1; Doubles.noop 2])
                [Doubles.noop 1; Doubles.noop 2] 1 eq_refl eq_refl) as H.
  split; apply H.
Defined.

Lemma destroy_idempotent_witness :
  General.destroy_times General.registering 2 3 (General.mkLife (Some [1; 2]) None 0 [])
  = Some ([Normal (Some (mkPromise 0 [Value; Fulfils]));
           Normal (Some (mkPromise 0 [Value; Fulfils]));
           Normal (Some (mkPromise 0 [Value; Fulfils]))],
          General.mkLife None (Some (mkPromise 0 [Value; Fulfils])) 1 [1; 2])
  /\ outcome (mkPromise 0 [Value; Fulfils]) = Fulfilled.
Proof.
  assert (Hwell : forall f, In f [1; 2] -> General.well_behaved General.registering f).
  { intros f _ i. split; [eexists|]; reflexivity. }
  pose proof (destroy_idempotent General.registering
                (General.mkLife (Some [1; 2]) None 0 []) [1; 2] 2 0 eq_refl Hwell)
    as (_ & Hall & Hok & _).
  split; [exact Hall | apply Hok; reflexivity].
Defined.

Lemma destroy_runs_in_registration_order_witness :
  invoked (snd (destroy (Doubles.fresh_with [Doubles.noop 1; Doubles.throwing 2; Doubles.noop 3])))
  = [Doubles.noop 1; Doubles.throwing 2].
Proof.
  apply (destroy_runs_in_registration_order
           (Doubles.fresh_with [Doubles.noop 1; Doubles.throwing 2; Doubles.noop 3])
           [Doubles.noop 1; Doubles.throwing 2; Doubles.noop 3] eq_refl).
Defined.


(** The specification's stronger reading of repeated [destroy()] fails as
    soon as a handler returns a promise that rejects: both calls return
    the same promise, and it is rejected. *)
Lemma destroy_rejected_promise :
  ~ spec_idempotent_destroy 2 (Doubles.fresh_with [Doubles.noop 1; Doubles.rejecting 2]).
Proof.
  intros H.
  destruct (H [Doubles.noop 1; Doubles.rejecting 2] eq_refl) as (_ & p & Hall & Hout).
  vm_compute in Hall. inversion Hall as [|r rs Hp _]; subst.
  injection Hp as <-. discriminate Hout.
Qed.

(** Two handlers registered as 1 then 2 are called as 1 then 2. *)
Lemma destroy_not_in_reverse :
  ~ spec_destroy_in_reverse (Doubles.fresh_with [Doubles.noop 1; Doubles.noop 2]).
Proof.
  intros H. specialize (H [Doubles.noop 1; Doubles.noop 2] eq_refl).
  vm_compute in H. discriminate H.
Qed.

(** The order inside [destroy()] shows when a handler throws: the handlers
    before it have run, the chain is still in place, no promise was made,
    and the next [destroy()] runs them again. *)
Example destroy_after_throw :
  destroy_times 2 (Doubles.fresh_with [Doubles.noop 1; Doubles.throwing 2])
  = ([Throw (Error "boom"); Throw (Error "boom")],
     set_invoked [Doubles.noop 1; Doubles.throwing 2; Doubles.noop 1; Doubles.throwing 2]
       (Doubles.fresh_with [Doubles.noop 1; Doubles.throwing 2])).
Proof. reflexivity. Qed.

(** It also shows when a handler registers another one while [destroy()]
    is calling it: the new handler is pushed on the array that is about to
    be dropped, and is never called. *)
Example destroy_drops_handler_registered_meanwhile :
  let s := snd (destroy (Doubles.fresh_with [Doubles.registering 1 (Doubles.noop 2)])) in
  invoked s = [Doubles.registering 1 (Doubles.noop 2)]
  /\ _destroyHandlers s = None
  /\ invoked (snd (destroy s)) = invoked s.
Proof. repeat split. Qed.

(** ** The filter handlers and the dispatcher *)

Section HandlerFacts.
Context {lib : DateLib} {host : Host}.

Lemma findIndex_explicit (title : string) (s : View) :
  title <> EmptyString ->
  findIndex (Some title) s =
    match indexPatterns_find title with
    | idxObj :: _ => (Normal (id idxObj), s)
    | [] => (Throw (Error (indexNotFoundErrorMessage title)), s)
    end.
Proof.
  intros Hne. unfold findIndex, truthy_str.
  destruct (String.eqb_spec title EmptyString) as [->|_]; [contradiction|]. simpl.
  destruct (indexPatterns_find title); reflexivity.
Qed.

Lemma findIndex_fallback (index : option string) (s : View) (p : Parser) :
  truthy_str index = false ->
  _parser s = Some p ->
  findIndex index s =
    match extractIndexPatternsFromSpec (if isVegaLite p then vlspec p else spec p) with
    | idxObj :: _ => (Normal (id idxObj), s)
    | [] =>
        match indexPatterns_getDefault with
        | Some defaultIdx => (Normal (id defaultIdx), s)
        | None => (Throw (Error unableToFindDefaultIndexErrorMessage), s)
        end
    end.
Proof.
  intros Hf Hp. unfold findIndex.
  assert (E : forall k : Parser -> M string,
             bind this_parser k s = k p s).
  { intros k. unfold this_parser, bind, gets. rewrite Hp. reflexivity. }
  destruct index as [title|]; [rewrite Hf|]; rewrite E;
    destruct (extractIndexPatternsFromSpec _); try reflexivity;
    destruct indexPatterns_getDefault; reflexivity.
Qed.

(** C8.  Index resolution in [addFilterHandler].  With no usable explicit
    index (absent, or the empty string): the first index pattern found in
    the spec is used; failing that, the host's default index; failing that
    too, the call throws "Unable to find default index" and applies no
    filter.  With an explicit index: the pattern found under that title is
    used, and if there is none the call throws [Index "<title>" not found]
    and applies no filter -- whatever the spec or the default would
    offer. *)
Theorem addFilterHandler_index_resolution (q i als : jsval) (s : View) (p : Parser)
    (Hp : _parser s = Some p) :
  let fromSpec := extractIndexPatternsFromSpec (if isVegaLite p then vlspec p else spec p) in
  let applies indexId :=
    addFilterHandler q i als s =
      (Normal tt,
       set_applied
         (applied s ++ [QueryFilters [buildQueryFilter (handleInvalidQuery q) indexId als]]) s) in
  (truthy_str (handleNonStringIndex i) = false ->
     (forall x rest, fromSpec = x :: rest -> applies (id x))
     /\ (forall d, fromSpec = [] -> indexPatterns_getDefault = Some d -> applies (id d))
     /\ (fromSpec = [] -> indexPatterns_getDefault = None ->
           addFilterHandler q i als s =
             (Throw (Error "Unable to find default index"), s)))
  /\ (forall title, handleNonStringIndex i = Some title -> title <> EmptyString ->
        (forall x rest, indexPatterns_find title = x :: rest -> applies (id x))
        /\ (indexPatterns_find title = [] ->
              addFilterHandler q i als s =
                (Throw (Error ("Index " ++ (dquote ++ title ++ dquote) ++ " not found")%string), s))).
Proof.
  intros fromSpec applies. subst applies. unfold addFilterHandler, bind. split.
  - intros Hf. rewrite (findIndex_fallback _ s p Hf Hp). fold fromSpec.
    repeat split.
    + intros x rest ->. reflexivity.
    + intros d -> ->. reflexivity.
    + intros -> ->. reflexivity.
  - intros title -> Hne. rewrite (findIndex_explicit title s Hne).
    split.
    + intros x rest ->. reflexivity.
    + intros ->. reflexivity.
Qed.

Lemma onError_appends (e : exn) (s : View) :
  onError e s =
    (Normal tt, set_messages (Some (items s ++ [mkMessage err (formatErrorToStr e)])) s).
Proof. reflexivity. Qed.

Context {inst : Instance}.

(** C5.  [vegaFunctionsHandler] always completes normally.  For a name
    outside the table, or one whose method is missing on the instance, it
    is the error path run on ["<name>() is not defined for this graph"];
    when the routed handler throws, it is the error path run on what was
    thrown, from the state the handler left; and the error path appends
    one [err] record to the message list. *)
Theorem vegaFunctionsHandler_never_throws (funcName : string) (args : list jsval) (s : View) :
  (exists s', vegaFunctionsHandler funcName args s = (Normal tt, s'))
  /\ (vegaFunctions funcName = None
      \/ (exists name, vegaFunctions funcName = Some name /\ this_method name = None) ->
      vegaFunctionsHandler funcName args s =
        onError (Error ((funcName ++ "()") ++ " is not defined for this graph")%string) s)
  /\ (forall name f e s1,
        vegaFunctions funcName = Some name -> this_method name = Some f ->
        f args s = (Throw e, s1) ->
        vegaFunctionsHandler funcName args s = onError e s1)
  /\ (forall name f s1,
        vegaFunctions funcName = Some name -> this_method name = Some f ->
        f args s = (Normal tt, s1) ->
        vegaFunctionsHandler funcName args s = (Normal tt, s1))
  /\ (forall e s1,
        fst (onError e s1) = Normal tt
        /\ items (snd (onError e s1)) = items s1 ++ [mkMessage err (formatErrorToStr e)]).
Proof.
  unfold vegaFunctionsHandler, try_catch, throw. repeat split.
  - destruct (vegaFunctions funcName) as [name|]; [|rewrite onError_appends; eauto].
    destruct (this_method name) as [f|]; [|rewrite onError_appends; eauto].
    destruct (f args s) as [[[]|e] s1]; [eauto|rewrite onError_appends; eauto].
  - intros [->|(name & -> & ->)]; reflexivity.
  - intros name f e s1 -> -> ->. reflexivity.
  - intros name f s1 -> -> ->. reflexivity.
Qed.

End HandlerFacts.

(** ** Warnings *)

Section WarningFacts.
Context {lib : DateLib} {host : Host} {inst : Instance}.

Lemma addMessage_appends (k : MessageKind) (txt : string) (s : View) :
  _addMessage k txt s = (Normal tt, set_messages (Some (items s ++ [mkMessage k txt])) s).
Proof. reflexivity. Qed.

Lemma items_set_messages (l : list MessageRecord) (s : View) :
  items (set_messages (Some l) s) = l.
Proof. reflexivity. Qed.

(** The loop over [this._parser.warnings] in [init()]. *)
Lemma show_parse_warnings (ws : list string) :
  forall s : View,
    for_of ws (fun w => _addMessage warn w) s =
      (Normal tt,
       match ws with
       | [] => s
       | _ => set_messages (Some (items s ++ map (mkMessage warn) ws)) s
       end).
Proof.
  induction ws as [|w rest IH]; intros s; [reflexivity|].
  cbn [for_of]. unfold bind at 1. rewrite addMessage_appends, IH.
  destruct rest as [|w' rest']; [reflexivity|].
  unfold items at 1. cbn [_messages set_messages]. rewrite <- app_assoc. reflexivity.
Qed.

Lemma show_parse_warnings_fields (ws : list string) (s : View) :
  let s' := snd (for_of ws (fun w => _addMessage warn w) s) in
  items s' = items s ++ map (mkMessage warn) ws
  /\ _destroyHandlers s' = _destroyHandlers s
  /\ _parser s' = _parser s.
Proof.
  rewrite show_parse_warnings. destruct ws; simpl; [|auto].
  rewrite app_nil_r. auto.
Qed.

(** What [init()] does on a controller that is neither initialised nor
    destroyed yet, as far as the message list goes. *)
Lemma init_reports_parse_warnings (s : View) (p : Parser) (hs : list handler)
    (Hp : _parser s = Some p)
    (Hnew : _initialized s = false)
    (Hchain : _destroyHandlers s = Some hs)
    (Hcustom : forall s1, exists added,
        items (snd (_initViewCustomizations s1)) = items s1 ++ added) :
  exists s' rest,
    init s = (Normal tt, s')
    /\ items s' = items s ++ map (mkMessage warn) (warnings p) ++ rest.
Proof.
  unfold init, bind at 1, gets. rewrite Hnew.
  unfold bind at 1, modify. unfold try_catch.
  set (s1 := set_initialized true s).
  assert (Hp1 : _parser s1 = Some p) by exact Hp.
  unfold this_parser. unfold bind at 1. unfold bind at 1. unfold gets. rewrite Hp1.
  unfold ret. unfold bind at 1. unfold modify.
  set (s2 := set_parent_direction (Some (containerDir p)) s1).
  unfold bind at 1.
  destruct (show_parse_warnings_fields (warnings p) s2) as (Hi & Hc & Hpp).
  destruct (for_of (warnings p) (fun w => _addMessage warn w) s2) as [r s3] eqn:E.
  assert (Hr : r = Normal tt).
  { rewrite show_parse_warnings in E. now inversion E. }
  subst r. simpl in Hi, Hc, Hpp.
  change (items s2) with (items s) in Hi.
  change (_destroyHandlers s2) with (_destroyHandlers s) in Hc.
  change (_parser s2) with (_parser s) in Hpp.
  destruct (truthy_str (error p)).
  - destruct (error p) as [e|].
    + rewrite addMessage_appends.
      eexists _, [mkMessage err e]. split; [reflexivity|].
      rewrite items_set_messages, Hi, <- app_assoc. reflexivity.
    + exists s3, []. split; [reflexivity|]. rewrite app_nil_r. exact Hi.
  - unfold bind at 1. unfold modify.
    set (s4 := set_mounts true true s3).
    unfold bind at 1.
    rewrite (addDestroyHandler_live DomCleanup s4 hs) by (rewrite <- Hchain, <- Hc; reflexivity).
    set (s5 := set_destroyHandlers (Some (hs ++ [DomCleanup])) s4).
    unfold createViewConfig, this_parser.
    unfold bind at 1. unfold bind at 1. unfold bind at 1. unfold gets.
    assert (Hp5 : _parser s5 = Some p) by (rewrite <- Hp, <- Hpp; reflexivity).
    rewrite Hp5. unfold ret. unfold bind at 1. unfold modify.
    set (s6 := set_vegaViewConfig (Some (mkViewConfig (renderer p))) s5).
    destruct (Hcustom s6) as [added Hadd].
    assert (Hi6 : items s6 = items s ++ map (mkMessage warn) (warnings p)) by exact Hi.
    destruct (_initViewCustomizations s6) as [[[]|e] s7]; simpl in Hadd.
    + exists s7, added. split; [reflexivity|]. rewrite Hadd, Hi6, <- app_assoc. reflexivity.
    + rewrite onError_appends.
      eexists _, (added ++ [mkMessage err (formatErrorToStr e)]). split; [reflexivity|].
      rewrite items_set_messages, Hadd, Hi6, <- !app_assoc. reflexivity.
Qed.

(** C9, as amended.  On every controller whose parser result asks for
    warning suppression -- initialised or not, destroyed or not -- [onWarn]
    appends nothing and changes nothing, whatever it is called with.
    [init()] does not go through that check: on such a controller, when it
    is neither initialised nor destroyed yet, [init()] still appends one
    [warn] record per pre-existing parse warning, in order, ahead of
    anything else it reports.  (For the [init()] part the customisation
    step of the subclass is assumed only to add to the message list.) *)
Theorem hideWarnings_silences_onWarn_not_init
    (s : View) (p : Parser)
    (Hp : _parser s = Some p)
    (Hhide : hideWarnings p = true) :
  (forall args, onWarn args s = (Normal tt, s))
  /\ (forall hs,
        _initialized s = false ->
        _destroyHandlers s = Some hs ->
        (forall s1, exists added,
            items (snd (_initViewCustomizations s1)) = items s1 ++ added) ->
        fst (init s) = Normal tt
        /\ exists rest,
             items (snd (init s)) = items s ++ map (mkMessage warn) (warnings p) ++ rest).
Proof.
  split.
  { intros args. unfold onWarn, bind, gets. rewrite Hp, Hhide. reflexivity. }
  intros hs Hnew Hchain Hcustom.
  destruct (init_reports_parse_warnings s p hs Hp Hnew Hchain Hcustom)
    as (s' & rest & E & Hi).
  rewrite E. split; [reflexivity|]. exists rest. exact Hi.
Qed.

End WarningFacts.

(** ** The statements above on concrete inputs *)

Section Instances.
Import Doubles.

Lemma parseTimeRange_mode_witness :
  _parseTimeRange (lib := stub_dates) (JStr "now-1h") (JStr "now")
    = Normal (mkRange (Raw (JStr "now-1h")) (Raw (JStr "now")) relative)
  /\ (mode (mkRange (Raw (JStr "now-1h")) (Raw (JStr "now")) relative) = relative <->
        parses_absolute (lib := stub_dates) (JStr "now-1h") = false
        /\ parses_absolute (lib := stub_dates) (JStr "now") = false)
  /\ mode (mkRange (Resolved (mkMoment true 1577836800000))
             (Resolved (mkMoment true 1699996400000)) absolute) = absolute.
Proof.
  split; [reflexivity|split].
  - apply (parseTimeRange_mode (lib := stub_dates) (JStr "now-1h") (JStr "now")
             (mkRange (Raw (JStr "now-1h")) (Raw (JStr "now")) relative) eq_refl).
  - apply (parseTimeRange_mode (lib := stub_dates)
             (JStr "now-1h") (JStr "2020-01-01T00:00:00Z")
             (mkRange (Resolved (mkMoment true 1577836800000))
                (Resolved (mkMoment true 1699996400000)) absolute) eq_refl).
    right. reflexivity.
Defined.

Lemma malformed_time_range_rejected_witness :
  applied (snd (setTimeFilterHandler (lib := stub_dates) (host := host3)
                  (JStr "not-a-date") (JStr "also-not-a-date") fresh)) = []
  /\ fst (setTimeFilterHandler (lib := stub_dates) (host := host3)
            (JStr "not-a-date") (JStr "also-not-a-date") fresh)
     = Throw (Error
         ("Error setting time filter: both time values must be either relative or absolute dates. "
            ++ ("start=" ++ (dquote ++ "not-a-date" ++ dquote)) ++ ", "
            ++ ("end=" ++ (dquote ++ "also-not-a-date" ++ dquote)))%string).
Proof.
  pose proof (malformed_time_range_rejected (lib := stub_dates) (host := host3)
                (JStr "not-a-date") (JStr "also-not-a-date") fresh
                (Some invalid_moment) (Some invalid_moment)
                eq_refl eq_refl eq_refl eq_refl eq_refl eq_refl) as H.
  cbv zeta in H. destruct H as (_ & Hthrow & Happlied).
  split.
  - exact Happlied.
  - rewrite Hthrow. reflexivity.
Defined.

Lemma parser_error_preempts_time_values_error_witness :
  parses_absolute (lib := stub_dates) (JNum 8640000000000001) = false
  /\ parses_absolute (lib := stub_dates) (JStr "junk") = false
  /\ parses_relative (lib := stub_dates) (JNum 8640000000000001) = false
  /\ parses_relative (lib := stub_dates) (JStr "junk") = false
  /\ _parseTimeRange (lib := stub_dates) (JNum 8640000000000001) (JStr "junk")
     = Throw (TypeError "text.substring is not a function")
  /\ _parseTimeRange (lib := stub_dates) (JNum 8640000000000001) (JStr "junk")
     <> Throw (Error (timeValuesTypeErrorMessage (lib := stub_dates)
                        (JNum 8640000000000001) (JStr "junk")))
  /\ setTimeFilterHandler (lib := stub_dates) (host := host3)
       (JNum 8640000000000001) (JStr "junk") fresh
     = (Throw (TypeError "text.substring is not a function"), fresh).
Proof.
  pose proof (parser_error_preempts_time_values_error (lib := stub_dates) (host := host3)
                (JNum 8640000000000001) (JStr "junk") fresh
                (TypeError "text.substring is not a function")
                eq_refl eq_refl eq_refl) as H.
  cbv zeta in H. destruct H as (Hrel & Hthrow & Hne & Hhandler).
  split; [reflexivity|]. split; [reflexivity|]. split; [exact Hrel|].
  split; [reflexivity|]. split; [exact Hthrow|]. split; [|exact Hhandler].
  apply Hne. discriminate.
Defined.

Lemma absolute_range_symmetric_witness :
  _parseTimeRange (lib := stub_dates) (JStr "2020-01-01T00:00:00Z") (JStr "2021-03-04T05:06:07Z")
  = _parseTimeRange (lib := stub_dates) (JStr "2021-03-04T05:06:07Z") (JStr "2020-01-01T00:00:00Z")
  /\ _parseTimeRange (lib := stub_dates) (JStr "2021-03-04T05:06:07Z") (JStr "2020-01-01T00:00:00Z")
     = Normal (mkRange (Resolved (mkMoment true 1577836800000))
                 (Resolved (mkMoment true 1614834367000)) absolute).
Proof.
  pose proof (absolute_range_symmetric (lib := stub_dates)
                (JStr "2021-03-04T05:06:07Z") (JStr "2020-01-01T00:00:00Z")
                eq_refl eq_refl eq_refl) as (Hres & Hsym & _).
  split; [exact Hsym | exact Hres].
Defined.

Lemma addFilterHandler_index_resolution_witness :
  applied (snd (addFilterHandler (host := host1)
                  (JObj []) JUndefined (JStr "mine") fresh))
    = [QueryFilters [buildQueryFilter (JObj []) "from-spec" (JStr "mine")]]
  /\ applied (snd (addFilterHandler (host := host2)
                     (JObj []) JUndefined (JStr "mine") fresh))
     = [QueryFilters [buildQueryFilter (JObj []) "default" (JStr "mine")]]
  /\ addFilterHandler (host := host3)
       (JObj []) JUndefined (JStr "mine") fresh
     = (Throw (Error "Unable to find default index"), fresh)
  /\ addFilterHandler (host := host1)
       (JObj []) (JStr "metrics") (JStr "mine") fresh
     = (Throw (Error ("Index " ++ (dquote ++ "metrics" ++ dquote) ++ " not found")%string), fresh).
Proof.
  pose proof (addFilterHandler_index_resolution (host := host1)
                (JObj []) JUndefined (JStr "mine") fresh (stub_parser [] false) eq_refl) as H1.
  pose proof (addFilterHandler_index_resolution (host := host2)
                (JObj []) JUndefined (JStr "mine") fresh (stub_parser [] false) eq_refl) as H2.
  pose proof (addFilterHandler_index_resolution (host := host3)
                (JObj []) JUndefined (JStr "mine") fresh (stub_parser [] false) eq_refl) as H3.
  pose proof (addFilterHandler_index_resolution (host := host1)
                (JObj []) (JStr "metrics") (JStr "mine") fresh (stub_parser [] false) eq_refl) as H4.
  cbv zeta in H1, H2, H3, H4.
  destruct H1 as [H1 _]. destruct (H1 eq_refl) as (H1a & _).
  destruct H2 as [H2 _]. destruct (H2 eq_refl) as (_ & H2b & _).
  destruct H3 as [H3 _]. destruct (H3 eq_refl) as (_ & _ & H3c).
  destruct H4 as [_ H4]. destruct (H4 "metrics" eq_refl) as (_ & H4b); [discriminate|].
  split; [|split; [|split]].
  - rewrite (H1a (mkIndexPattern "from-spec") [] eq_refl). reflexivity.
  - rewrite (H2b (mkIndexPattern "default") eq_refl eq_refl). reflexivity.
  - exact (H3c eq_refl eq_refl).
  - exact (H4b eq_refl).
Defined.

Lemma vegaFunctionsHandler_never_throws_witness :
  vegaFunctionsHandler (host := host3) (inst := base_instance (lib := stub_dates) (host := host3))
    "opensearchDashboardsZoom" [] fresh
  = (Normal tt,
     set_messages
       (Some [mkMessage err "opensearchDashboardsZoom() is not defined for this graph"]) fresh)
  /\ vegaFunctionsHandler (host := host3) (inst := base_instance (lib := stub_dates) (host := host3))
       "opensearchDashboardsAddFilter" [JObj []] fresh
     = (Normal tt, set_messages (Some [mkMessage err "Unable to find default index"]) fresh).
Proof.
  pose proof (vegaFunctionsHandler_never_throws (host := host3)
                (inst := base_instance (lib := stub_dates) (host := host3))
                "opensearchDashboardsZoom" [] fresh) as (_ & Hunknown & _).
  pose proof (vegaFunctionsHandler_never_throws (host := host3)
                (inst := base_instance (lib := stub_dates) (host := host3))
                "opensearchDashboardsAddFilter" [JObj []] fresh) as (_ & _ & Hthrows & _).
  split.
  - rewrite Hunknown; [reflexivity | left; reflexivity].
  - rewrite (Hthrows "addFilterHandler"
               (fun args => addFilterHandler (host := host3)
                              (arg 0 args) (arg 1 args) (arg 2 args))
               (Error "Unable to find default index") fresh eq_refl eq_refl eq_refl).
    reflexivity.
Defined.

Lemma hideWarnings_silences_onWarn_not_init_witness :
  onWarn (host := host3) [JStr "scale is deprecated"]
    (snd (init (host := host3) (inst := base_instance (lib := stub_dates) (host := host3))
            (VegaBaseView (Some (stub_parser ["uses a deprecated option"] true)) [] false)))
  = (Normal tt,
     snd (init (host := host3) (inst := base_instance (lib := stub_dates) (host := host3))
            (VegaBaseView (Some (stub_parser ["uses a deprecated option"] true)) [] false)))
  /\ fst (init (host := host3) (inst := base_instance (lib := stub_dates) (host := host3))
            (VegaBaseView (Some (stub_parser ["uses a deprecated option"] true)) [] false))
     = Normal tt.
Proof.
  pose proof (hideWarnings_silences_onWarn_not_init
                (host := host3) (inst := base_instance (lib := stub_dates) (host := host3))
                (snd (init (host := host3)
                        (inst := base_instance (lib := stub_dates) (host := host3))
                        (VegaBaseView (Some (stub_parser ["uses a deprecated option"] true))
                           [] false)))
                (stub_parser ["uses a deprecated option"] true)
                eq_refl eq_refl) as [Hwarn _].
  pose proof (hideWarnings_silences_onWarn_not_init
                (host := host3) (inst := base_instance (lib := stub_dates) (host := host3))
                (VegaBaseView (Some (stub_parser ["uses a deprecated option"] true)) [] false)
                (stub_parser ["uses a deprecated option"] true)
                eq_refl eq_refl) as [_ Hinit].
  assert (Hcustom : forall s1 : View, exists added : list MessageRecord,
             items (snd (_initViewCustomizations
                           (Instance := base_instance (lib := stub_dates) (host := host3)) s1))
             = items s1 ++ added).
  { intros s1. exists []. simpl. rewrite app_nil_r. reflexivity. }
  destruct (Hinit [] eq_refl eq_refl Hcustom) as (Hok & _).
  split; [exact (Hwarn [JStr "scale is deprecated"]) | exact Hok].
Defined.

(** With suppression requested and one parse warning, [init()] on a new
    controller leaves that warning in the message list. *)
Lemma init_shows_parse_warnings_despite_hideWarnings :
  ~ spec_warnings_suppressed
      (init (host := host3) (inst := base_instance (lib := stub_dates) (host := host3)))
      (VegaBaseView (Some (stub_parser ["uses a deprecated option"] true)) [] false).
Proof.
  intros H.
  apply (H (stub_parser ["uses a deprecated option"] true) eq_refl eq_refl
           (mkMessage warn "uses a deprecated option")).
  - left. reflexivity.
  - reflexivity.
Qed.

End Instances.

(** * Further properties *)

(** ** The time-range normaliser, continued *)

Section TimeRangeMore.
Context {lib : DateLib}.

Lemma isAfter_valid (a b : Moment) :
  isValid a = true -> isValid b = true ->
  isAfter a b = (valueOf b <? valueOf a)%Z.
Proof. unfold isAfter. intros -> ->. reflexivity. Qed.

(** Whatever the normaliser returns is in chronological order: [from]
    stands for an instant no later than the one [to] stands for -- the
    moments themselves in absolute mode, what [dateMath.parse] makes of the
    two raw values in relative mode. *)
Theorem parseTimeRange_ordered (start end_ : jsval) (r : Range)
    (Hok : _parseTimeRange start end_ = Normal r) :
  exists a b,
    instant_of (from r) = Some a /\ instant_of (to r) = Some b /\ (a <= b)%Z.
Proof.
  destruct (parses_absolute start && parses_absolute end_) eqn:Hb.
  - apply andb_prop in Hb as [Vs Ve].
    rewrite (parseTimeRange_both_absolute _ _ Vs Ve) in Hok. injection Hok as <-.
    rewrite (isAfter_valid _ _ Vs Ve). unfold finish.
    destruct (Z.ltb_spec (valueOf (moment end_)) (valueOf (moment start)));
      simpl; eexists _, _; repeat split; lia.
  - destruct (parseTimeRange_not_both_absolute _ _ _ Hb Hok)
      as (ds & de & Ds & De & Vds & Vde & ->).
    rewrite (isAfter_valid _ _ Vds Vde). unfold finish.
    destruct (parses_absolute start || parses_absolute end_);
      destruct (Z.ltb_spec (valueOf de) (valueOf ds));
      simpl; rewrite ?Ds, ?De; eexists _, _; repeat split; lia.
Qed.

(** [setTimeFilterHandler] applies a time filter exactly when both values
    are valid absolute timestamps or [dateMath.parse] returns a valid
    moment for both -- then it makes one [this._applyFilter] call carrying
    the normalised range and touches nothing else.  In every other case
    (one good value and one bad one included) it throws and changes
    nothing: the error naming the two values when [dateMath.parse]
    returned for both, and otherwise what [dateMath.parse] threw, for the
    first value if it threw there, else for the second. *)
Theorem setTimeFilterHandler_applies_iff_parsable {host : Host}
    (start end_ : jsval) (s : View) :
  let a := handleInvalidDate start in
  let b := handleInvalidDate end_ in
  (parses_absolute a && parses_absolute b || parses_relative a && parses_relative b = true ->
     exists r, _parseTimeRange a b = Normal r /\
       setTimeFilterHandler start end_ s =
         (Normal tt, set_applied (applied s ++ [TimeFilter (mode r) (from r) (to r)]) s))
  /\ (parses_absolute a && parses_absolute b || parses_relative a && parses_relative b = false ->
        exists e,
          setTimeFilterHandler start end_ s = (Throw e, s)
          /\ (forall sd ed, dateMath_parse a = Normal sd -> dateMath_parse b = Normal ed ->
                e = Error (timeValuesTypeErrorMessage a b))
          /\ (forall e', dateMath_parse a = Throw e' -> e = e')
          /\ (forall sd e', dateMath_parse a = Normal sd -> dateMath_parse b = Throw e' ->
                e = e')).
Proof.
  intros a b. unfold setTimeFilterHandler, bind, lift. fold a b.
  destruct (parses_absolute a && parses_absolute b) eqn:Hb.
  - apply andb_prop in Hb as [Va Vb].
    rewrite (parseTimeRange_both_absolute _ _ Va Vb). cbn [orb]. split.
    + intros _. eexists. split; reflexivity.
    + discriminate.
  - cbn [orb]. unfold _parseTimeRange. fold (parses_absolute a) (parses_absolute b).
    rewrite Hb. unfold parses_relative.
    destruct (dateMath_parse a) as [[ds|]|ea]; destruct (dateMath_parse b) as [[de|]|eb];
      try destruct (isValid ds); try destruct (isValid de); cbn [andb negb orb];
      split;
      first
        [ discriminate
        | intros _; destruct (parses_absolute a || parses_absolute b);
          eexists; split; reflexivity
        | intros _; eexists; split; [reflexivity|];
          split; [intros sd ed H1 H2; first [discriminate H1 | discriminate H2 | reflexivity]|];
          split; [intros e' H1; first [discriminate H1 | now injection H1 as <-]|];
          intros sd e' H1 H2;
          first [discriminate H1 | discriminate H2 | now injection H2 as <-] ].
Qed.

End TimeRangeMore.

(** ** The loader gate, continued *)

Section GateMore.
Import UrlAccessGate.
Context {options sanitized : Type}.
Variable originalSanitize : jsval -> options -> completion sanitized.

(** While external URLs are disabled, nothing a spec can write as a URL
    gets through: for every JSON value the gate throws -- the "External
    URLs are not enabled" error, or a [TypeError] for [null] -- whatever
    the original sanitizer would have answered. *)
Theorem sanitize_blocks_every_json_uri (uri : jsval) (opts : options)
    (Hjson : is_json uri = true) :
  (uri <> JNull ->
     sanitize options sanitized originalSanitize false uri opts
     = Throw (Error externalUrlsAreNotEnabledErrorMessage))
  /\ (exists e, sanitize options sanitized originalSanitize false uri opts = Throw e).
Proof.
  assert (H : uri <> JNull ->
              sanitize options sanitized originalSanitize false uri opts
              = Throw (Error externalUrlsAreNotEnabledErrorMessage)).
  { intros Hn. unfold sanitize.
    destruct uri; simpl in *; try discriminate; try reflexivity; try contradiction.
    now rewrite own_prop_json_not_symbol. }
  split; [exact H|].
  destruct uri; try (eexists; apply H; discriminate).
  eexists. reflexivity.
Qed.

End GateMore.

(** ** The filter handlers, continued *)

Ltac same_fields := unfold same_lifecycle; simpl; repeat split; reflexivity.

Section FilterMore.
Context {lib : DateLib} {host : Host}.

(** Index resolution only reads. *)
Lemma findIndex_reads_only (index : option string) (s : View) :
  snd (findIndex index s) = s.
Proof.
  unfold findIndex, this_parser, bind, gets, ret, throw.
  destruct index as [title|]; [destruct (truthy_str (Some title))|];
    try (destruct (indexPatterns_find title); reflexivity);
    destruct (_parser s) as [p|]; try reflexivity;
    destruct (extractIndexPatternsFromSpec _); try reflexivity;
    destruct indexPatterns_getDefault; reflexivity.
Qed.

Lemma same_lifecycle_refl (s : View) : same_lifecycle s s.
Proof. unfold same_lifecycle. repeat split. Qed.

Lemma removeFilterHandler_resolved (q i : jsval) (s : View) (indexId : string) :
  fst (findIndex (handleNonStringIndex i) s) = Normal indexId ->
  removeFilterHandler q i s =
    match find (fun f => compareFilters f
                           (buildQueryFilter (handleInvalidQuery q) indexId JUndefined))
               (filters s) with
    | None => (Normal tt, s)
    | Some f =>
        match filterManager_removeFilter f (filters s) with
        | Normal remaining => (Normal tt, set_filters remaining s)
        | Throw e => onError e s
        end
    end.
Proof.
  intros Hidx.
  pose proof (findIndex_reads_only (handleNonStringIndex i) s) as Hs.
  unfold removeFilterHandler. unfold bind at 1.
  destruct (findIndex (handleNonStringIndex i) s) as [r s0]. simpl in Hidx, Hs. subst r s0.
  unfold bind at 1, gets.
  destruct (find _ (filters s)) as [f|]; [|reflexivity].
  unfold try_catch, bind, lift, modify.
  destruct (filterManager_removeFilter f (filters s)); reflexivity.
Qed.

(** What [removeFilterHandler] does once the index is resolved: it never
    calls [this._applyFilter]; with no matching filter it changes nothing;
    with a match it hands the filter to the filter manager, and when that
    throws, the handler still completes normally, the filters stay as they
    were and the error becomes one [err] record. *)
Theorem removeFilterHandler_effects (q i : jsval) (s : View) (indexId : string)
    (Hidx : fst (findIndex (handleNonStringIndex i) s) = Normal indexId) :
  let wanted := buildQueryFilter (handleInvalidQuery q) indexId JUndefined in
  let hit := find (fun f => compareFilters f wanted) (filters s) in
  fst (removeFilterHandler q i s) = Normal tt
  /\ applied (snd (removeFilterHandler q i s)) = applied s
  /\ same_lifecycle s (snd (removeFilterHandler q i s))
  /\ (hit = None -> snd (removeFilterHandler q i s) = s)
  /\ (forall f remaining, hit = Some f ->
        filterManager_removeFilter f (filters s) = Normal remaining ->
        snd (removeFilterHandler q i s) = set_filters remaining s)
  /\ (forall f e, hit = Some f ->
        filterManager_removeFilter f (filters s) = Throw e ->
        filters (snd (removeFilterHandler q i s)) = filters s
        /\ items (snd (removeFilterHandler q i s))
           = items s ++ [mkMessage err (formatErrorToStr e)]).
Proof.
  intros wanted hit. rewrite (removeFilterHandler_resolved q i s indexId Hidx).
  fold wanted. fold hit.
  destruct hit as [f|].
  - destruct (filterManager_removeFilter f (filters s)) as [remaining|e] eqn:E.
    + split; [reflexivity|]. split; [reflexivity|].
      split; [same_fields|]. split; [discriminate|]. split.
      * intros f0 rem H0 H1. injection H0 as <-. rewrite E in H1. injection H1 as <-.
        reflexivity.
      * intros f0 e0 H0 H1. injection H0 as <-. rewrite E in H1. discriminate.
    + rewrite onError_appends.
      split; [reflexivity|]. split; [reflexivity|].
      split; [same_fields|]. split; [discriminate|]. split.
      * intros f0 rem H0 H1. injection H0 as <-. rewrite E in H1. discriminate.
      * intros f0 e0 H0 H1. injection H0 as <-. rewrite E in H1. injection H1 as <-.
        split; reflexivity.
  - split; [reflexivity|]. split; [reflexivity|].
    split; [same_fields|]. split; [reflexivity|].
    split; discriminate.
Qed.


End FilterMore.

(** ** The dispatcher on the base class *)

Section DispatchMore.
Context {lib : DateLib} {host : Host}.

(** The table and the class agree: every name the table routes has its
    handler method declared by [VegaBaseView], and the names routed are
    exactly the four keys. *)
Theorem vegaFunctions_all_declared (funcName : string) :
  (forall name, vegaFunctions funcName = Some name ->
     exists f, VegaBaseView_method name = Some f)
  /\ (In funcName ExpressionFunctions.vegaFunctions_keys <-> vegaFunctions funcName <> None).
Proof.
  unfold vegaFunctions, ExpressionFunctions.vegaFunctions_keys. split.
  - intros name.
    destruct (String.eqb funcName "opensearchDashboardsAddFilter");
      [intros [= <-]; eexists; reflexivity|].
    destruct (String.eqb funcName "opensearchDashboardsRemoveFilter");
      [intros [= <-]; eexists; reflexivity|].
    destruct (String.eqb funcName "opensearchDashboardsRemoveAllFilters");
      [intros [= <-]; eexists; reflexivity|].
    destruct (String.eqb funcName "opensearchDashboardsSetTimeFilter");
      [intros [= <-]; eexists; reflexivity|].
    discriminate.
  - destruct (String.eqb_spec funcName "opensearchDashboardsAddFilter") as [->|N1];
      [split; [discriminate | intros _; simpl; auto]|].
    destruct (String.eqb_spec funcName "opensearchDashboardsRemoveFilter") as [->|N2];
      [split; [discriminate | intros _; simpl; auto]|].
    destruct (String.eqb_spec funcName "opensearchDashboardsRemoveAllFilters") as [->|N3];
      [split; [discriminate | intros _; simpl; auto]|].
    destruct (String.eqb_spec funcName "opensearchDashboardsSetTimeFilter") as [->|N4];
      [split; [discriminate | intros _; simpl; auto 6]|].
    split; [|intros H; now contradiction H].
    simpl. intros [H|[H|[H|[H|[]]]]]; symmetry in H; contradiction.
Qed.

Lemma quiet_unchanged (body : M unit) (s : View) :
  snd (body s) = s -> quiet_call body s.
Proof.
  intros H. unfold quiet_call. rewrite H. split; [same_fields|].
  exists []. rewrite app_nil_r. auto.
Qed.

Lemma addFilterHandler_quiet (q i als : jsval) (s : View) :
  quiet_call (addFilterHandler q i als) s.
Proof.
  pose proof (findIndex_reads_only (handleNonStringIndex i) s) as Hs.
  unfold quiet_call, addFilterHandler, bind.
  destruct (findIndex (handleNonStringIndex i) s) as [[indexId|e] s0]; simpl in Hs; subst s0;
    simpl; (split; [same_fields|]);
    exists []; rewrite app_nil_r; auto.
Qed.

Lemma removeFilterHandler_quiet (q i : jsval) (s : View) :
  quiet_call (removeFilterHandler q i) s.
Proof.
  pose proof (findIndex_reads_only (handleNonStringIndex i) s) as Hs.
  destruct (findIndex (handleNonStringIndex i) s) as [[indexId|e] s0] eqn:F;
    simpl in Hs; subst s0.
  - unfold quiet_call.
    rewrite (removeFilterHandler_resolved q i s indexId) by (rewrite F; reflexivity).
    destruct (find _ (filters s)) as [f|].
    + destruct (filterManager_removeFilter f (filters s)) as [remaining|e].
      * simpl. split; [same_fields|]. exists []. rewrite app_nil_r. auto.
      * rewrite onError_appends. simpl. split; [same_fields|].
        eexists. split; [reflexivity|]. split; [simpl; lia | intros ? H; discriminate H].
    + simpl. split; [same_fields|]. exists []. rewrite app_nil_r. auto.
  - apply quiet_unchanged. unfold removeFilterHandler. unfold bind at 1.
    rewrite F. reflexivity.
Qed.

Lemma setTimeFilterHandler_quiet (a b : jsval) (s : View) :
  quiet_call (setTimeFilterHandler a b) s.
Proof.
  unfold quiet_call, setTimeFilterHandler, bind, lift.
  destruct (_parseTimeRange _ _); simpl; (split; [same_fields|]);
    exists []; rewrite app_nil_r; auto.
Qed.

Lemma try_catch_quiet (body : M unit) (s : View) :
  quiet_call body s ->
  fst (try_catch body onError s) = Normal tt
  /\ same_lifecycle s (snd (try_catch body onError s))
  /\ exists added, items (snd (try_catch body onError s)) = items s ++ added
                   /\ length added <= 1.
Proof.
  intros (Hl & added & Hi & Hlen & Ht). unfold try_catch.
  destruct (body s) as [[[]|e] s1]; cbn [fst snd] in *.
  - split; [reflexivity|]. split; [exact Hl|]. exists added. auto.
  - rewrite onError_appends. cbn [fst snd].
    split; [reflexivity|]. split; [revert Hl; unfold same_lifecycle; simpl; tauto|].
    rewrite items_set_messages.
    rewrite (Ht e eq_refl), app_nil_r in Hi. rewrite Hi.
    eexists. split; [reflexivity|]. simpl. lia.
Qed.

(** Through the base class, an expression-function call stays away from
    the lifecycle, whatever its name and arguments: the destroy chain,
    the completion promise, the bound view and the mounted nodes are as
    before, and the message list has at most one record more, after the
    ones it had. *)
Theorem vegaFunctionsHandler_leaves_lifecycle (funcName : string) (args : list jsval) (s : View) :
  let s' := snd (vegaFunctionsHandler (inst := Doubles.base_instance) funcName args s) in
  same_lifecycle s s'
  /\ exists added, items s' = items s ++ added /\ length added <= 1.
Proof.
  intros s'. subst s'. unfold vegaFunctionsHandler.
  apply try_catch_quiet. unfold vegaFunctions.
  destruct (String.eqb funcName "opensearchDashboardsAddFilter");
    [apply addFilterHandler_quiet|].
  destruct (String.eqb funcName "opensearchDashboardsRemoveFilter");
    [apply removeFilterHandler_quiet|].
  destruct (String.eqb funcName "opensearchDashboardsRemoveAllFilters");
    [unfold quiet_call; simpl; split; [same_fields|];
     exists []; rewrite app_nil_r; auto|].
  destruct (String.eqb funcName "opensearchDashboardsSetTimeFilter");
    [apply setTimeFilterHandler_quiet|].
  apply quiet_unchanged. reflexivity.
Qed.

End DispatchMore.

(** ** The message sink and initialisation, continued *)

Section InitMore.
Context {lib : DateLib} {host : Host}.



Context {inst : Instance}.

(** [init()] lets exactly one error out: on a controller that was
    initialised before it throws (an [Error] without a message) and
    changes nothing; on any other controller it completes normally,
    whatever goes wrong inside. *)
Theorem init_throws_iff_initialized (s : View) :
  (_initialized s = true -> init s = (Throw (Error EmptyString), s))
  /\ (_initialized s = false -> fst (init s) = Normal tt)
  /\ (forall e, fst (init s) = Throw e <-> _initialized s = true /\ e = Error EmptyString).
Proof.
  assert (H1 : _initialized s = true -> init s = (Throw (Error EmptyString), s)).
  { intros H. unfold init, bind, gets. rewrite H. reflexivity. }
  assert (H2 : _initialized s = false -> fst (init s) = Normal tt).
  { intros H. unfold init. unfold bind at 1. unfold gets. rewrite H.
    unfold bind at 1. unfold modify. unfold try_catch.
    match goal with |- fst (let (c, s') := ?b ?x in _) = _ => destruct (b x) as [[[]|e] s1] end.
    - reflexivity.
    - rewrite onError_appends. reflexivity. }
  split; [exact H1|]. split; [exact H2|].
  intros e. destruct (_initialized s) eqn:E.
  - rewrite (H1 eq_refl). simpl. split.
    + intros [= <-]. auto.
    + intros [_ ->]. reflexivity.
  - rewrite (H2 eq_refl). split; [discriminate | intros [? _]; discriminate].
Qed.

(** With a fatal parse error in the parser result, [init()] reports the
    parse warnings and then the error, and stops there: nothing is mounted,
    no destroy handler is registered, no view configuration is built and
    the customisation step of the subclass is not run. *)
Theorem init_stops_on_parse_error (s : View) (p : Parser) (e : string)
    (Hp : _parser s = Some p)
    (Hnew : _initialized s = false)
    (Herr : error p = Some e)
    (Hne : e <> EmptyString) :
  init s =
    (Normal tt,
     set_messages
       (Some (items s ++ map (mkMessage warn) (warnings p) ++ [mkMessage err e]))
       (set_parent_direction (Some (containerDir p)) (set_initialized true s))).
Proof.
  unfold init, bind at 1, gets. rewrite Hnew.
  unfold bind at 1, modify. unfold try_catch.
  set (s1 := set_initialized true s).
  assert (Hp1 : _parser s1 = Some p) by exact Hp.
  unfold this_parser. unfold bind at 1. unfold bind at 1. unfold gets. rewrite Hp1.
  unfold ret. unfold bind at 1. unfold modify.
  set (s2 := set_parent_direction (Some (containerDir p)) s1).
  unfold bind at 1. rewrite show_parse_warnings.
  assert (Ht : truthy_str (error p) = true).
  { rewrite Herr. unfold truthy_str.
    destruct (String.eqb_spec e EmptyString); [contradiction | reflexivity]. }
  rewrite Ht, Herr, addMessage_appends.
  destruct (warnings p) as [|w ws].
  - reflexivity.
  - rewrite items_set_messages. cbn [set_messages _messages].
    rewrite <- app_assoc. reflexivity.
Qed.

(** [init()] on a controller that was destroyed first: what it mounts is
    torn down on the spot, because the clean-up it registers is called
    right away.  With a subclass that customises nothing, the controller
    ends up with no container, no controls and no message list -- the
    parse warnings just reported are gone -- while the promise of the
    earlier [destroy()] is left alone. *)
Theorem init_after_destroy_unmounts (s : View) (p : Parser)
    (Hp : _parser s = Some p)
    (Hnew : _initialized s = false)
    (Hok : truthy_str (error p) = false)
    (Hclaimed : _destroyHandlers s = None)
    (Hcustom : forall s1, _initViewCustomizations s1 = (Normal tt, s1)) :
  fst (init s) = Normal tt
  /\ _container (snd (init s)) = false
  /\ _controls (snd (init s)) = false
  /\ _messages (snd (init s)) = None
  /\ _view (snd (init s)) = None
  /\ invoked (snd (init s)) = invoked s ++ [DomCleanup]
  /\ _destroyHandlers (snd (init s)) = None
  /\ _ongoingDestroy (snd (init s)) = _ongoingDestroy s.
Proof.
  assert (E : exists s', init s = (Normal tt, s')
              /\ _container s' = false /\ _controls s' = false /\ _messages s' = None
              /\ _view s' = None /\ invoked s' = invoked s ++ [DomCleanup]
              /\ _destroyHandlers s' = None /\ _ongoingDestroy s' = _ongoingDestroy s).
  { unfold init, bind at 1, gets. rewrite Hnew.
    unfold bind at 1, modify. unfold try_catch.
    set (s1 := set_initialized true s).
    assert (Hp1 : _parser s1 = Some p) by exact Hp.
    unfold this_parser. unfold bind at 1. unfold bind at 1. unfold gets. rewrite Hp1.
    unfold ret. unfold bind at 1. unfold modify.
    set (s2 := set_parent_direction (Some (containerDir p)) s1).
    unfold bind at 1. rewrite show_parse_warnings. rewrite Hok.
    set (s3 := match warnings p with
               | [] => s2
               | _ :: _ => set_messages (Some (items s2 ++ map (mkMessage warn) (warnings p))) s2
               end).
    assert (H3 : _destroyHandlers s3 = None /\ _parser s3 = Some p
                 /\ invoked s3 = invoked s /\ _ongoingDestroy s3 = _ongoingDestroy s).
    { subst s3. destruct (warnings p); simpl; auto. }
    destruct H3 as (Hc3 & Hp3 & Hi3 & Ho3).
    unfold bind at 1. unfold modify.
    set (s4 := set_mounts true true s3).
    unfold bind at 1. unfold _addDestroyHandler, add_handler.
    assert (Hc4 : _destroyHandlers s4 = None) by exact Hc3.
    rewrite Hc4. cbn [invoke].
    set (s5 := dom_cleanup (set_invoked (invoked s4 ++ [DomCleanup]) s4)).
    assert (H5 : _parser s5 = Some p /\ _container s5 = false /\ _controls s5 = false
                 /\ _messages s5 = None /\ _view s5 = None
                 /\ invoked s5 = invoked s ++ [DomCleanup]
                 /\ _destroyHandlers s5 = None /\ _ongoingDestroy s5 = _ongoingDestroy s).
    { subst s5. unfold dom_cleanup. cbn [set_mounts set_messages _view].
      change (invoked s4) with (invoked s3). rewrite Hi3.
      destruct (_view (set_invoked _ s4)); simpl; repeat split; auto. }
    destruct H5 as (Hp5 & H5).
    unfold createViewConfig, this_parser.
    unfold bind at 1. unfold bind at 1. unfold bind at 1. unfold gets.
    rewrite Hp5. unfold ret. unfold bind at 1. unfold modify.
    rewrite Hcustom. eexists. split; [reflexivity|]. exact H5. }
  destruct E as (s' & -> & H). exact (conj eq_refl H).
Qed.

End InitMore.

(** ** The destroy-handler chain, continued *)

Section ChainMore.

Lemma map_result_throws (hs : list handler) :
  forallb returns_normally hs = false -> exists e, map_result hs = Throw e.
Proof.
  induction hs as [|h rest IH]; simpl; [discriminate|].
  unfold returns_normally at 1. destruct (handler_result h) as [v|e]; [|eauto].
  simpl. intros H. destruct (IH H) as [e ->]. eauto.
Qed.

Lemma map_result_app_throws (hs extra : list handler) (e : exn) :
  map_result hs = Throw e -> map_result (hs ++ extra) = Throw e.
Proof.
  induction hs as [|h rest IH]; simpl; [discriminate|].
  destruct (handler_result h) as [v|e']; [|auto].
  destruct (map_result rest) as [vs|e'']; [discriminate|].
  intros [= ->]. now rewrite IH.
Qed.

Lemma reached_app_throws (hs extra : list handler) :
  forallb returns_normally hs = false -> reached (hs ++ extra) = reached hs.
Proof.
  induction hs as [|h rest IH]; simpl; [discriminate|].
  destruct (returns_normally h); [|reflexivity].
  simpl. intros H. now rewrite IH.
Qed.

(** One throwing handler makes [destroy()] repeat itself.  Every call
    throws what that handler throws; the chain is never cleared and no
    promise is made; and each call calls again all the handlers up to and
    including the one that throws -- while those registered after it are
    never reached. *)
Lemma destroy_reruns_after_throw_closures (s : View) (hs : list handler) (n : nat)
    (Hchain : _destroyHandlers s = Some hs)
    (Hthrows : forallb returns_normally hs = false) :
  exists e,
    map_result hs = Throw e
    /\ fst (destroy_times n s) = repeat (Throw e) n
    /\ invoked (snd (destroy_times n s)) = invoked s ++ concat (repeat (reached hs) n)
    /\ (exists extra, _destroyHandlers (snd (destroy_times n s)) = Some (hs ++ extra))
    /\ _ongoingDestroy (snd (destroy_times n s)) = _ongoingDestroy s.
Proof.
  destruct (map_result_throws hs Hthrows) as [e He]. exists e. split; [exact He|].
  assert (H : forall s extra,
             _destroyHandlers s = Some (hs ++ extra) ->
             fst (destroy_times n s) = repeat (Throw e) n
             /\ invoked (snd (destroy_times n s)) = invoked s ++ concat (repeat (reached hs) n)
             /\ (exists extra', _destroyHandlers (snd (destroy_times n s)) = Some (hs ++ extra'))
             /\ _ongoingDestroy (snd (destroy_times n s)) = _ongoingDestroy s).
  { clear s Hchain. induction n as [|n IH]; intros s extra Hs.
    - simpl. rewrite app_nil_r. repeat split; eauto.
    - cbn [destroy_times].
      destruct (map_invoke_live (hs ++ extra) s (hs ++ extra) Hs)
        as (Hr & Hi & (extra' & Hc) & Ho & _).
      rewrite (map_result_app_throws hs extra e He) in Hr.
      rewrite (reached_app_throws hs extra Hthrows) in Hi.
      rewrite destroy_unfold, Hs.
      destruct (map_invoke (hs ++ extra) s) as [r s1]. cbn [fst snd] in *. subst r.
      rewrite <- app_assoc in Hc.
      destruct (IH s1 _ Hc) as (Hr' & Hi' & Hc' & Ho').
      destruct (destroy_times n s1) as [rs s2]. cbn [fst snd] in *.
      split; [now rewrite Hr'|]. split; [|split].
      + rewrite Hi', Hi, <- app_assoc. reflexivity.
      + exact Hc'.
      + congruence. }
  apply (H s []). now rewrite app_nil_r.
Qed.

Lemma after_call_claimed (c : lifecycle_call) (s : View) :
  _destroyHandlers s = None ->
  _destroyHandlers (after_call s c) = None
  /\ _ongoingDestroy (after_call s c) = _ongoingDestroy s
  /\ promises (after_call s c) = promises s.
Proof.
  intros Hs. destruct c as [|h]; simpl.
  - rewrite (destroy_claimed s Hs). auto.
  - rewrite (addDestroyHandler_claimed h s Hs).
    destruct (invoke_claimed h s Hs) as (Hc & Ho & Hp & _). auto.
Qed.

(** Once the chain is [null] it stays [null]: whatever [destroy()] and
    [_addDestroyHandler] calls follow, in whatever order, the completion
    promise is never replaced, and [destroy()] keeps returning it without
    calling any handler. *)
Theorem completion_promise_is_final (cs : list lifecycle_call) (s : View)
    (Hclaimed : _destroyHandlers s = None) :
  _destroyHandlers (after_calls cs s) = None
  /\ _ongoingDestroy (after_calls cs s) = _ongoingDestroy s
  /\ promises (after_calls cs s) = promises s
  /\ destroy (after_calls cs s) = (Normal (_ongoingDestroy s), after_calls cs s).
Proof.
  assert (H : _destroyHandlers (after_calls cs s) = None
              /\ _ongoingDestroy (after_calls cs s) = _ongoingDestroy s
              /\ promises (after_calls cs s) = promises s).
  { revert s Hclaimed. unfold after_calls.
    induction cs as [|c rest IH]; intros s Hs; [simpl; auto|].
    cbn [fold_left].
    destruct (after_call_claimed c s Hs) as (Hc & Ho & Hp).
    destruct (IH _ Hc) as (Hc' & Ho' & Hp'). repeat split; congruence. }
  destruct H as (Hc & Ho & Hp). repeat split; auto.
  rewrite (destroy_claimed _ Hc), Ho. reflexivity.
Qed.

Lemma after_call_invariant (c : lifecycle_call) (s : View) :
  lifecycle_invariant s -> lifecycle_invariant (after_call s c).
Proof.
  intros [(hs & Hc & Ho & Hp) | (Hc & pr & Ho & Hpid & Hp)].
  - destruct c as [|h]; simpl.
    + destruct (map_invoke_live hs s hs Hc) as (_ & _ & (extra & Hc1) & Ho1 & Hp1).
      rewrite destroy_unfold, Hc.
      destruct (map_invoke hs s) as [[values|e] s1]; cbn [fst snd] in *.
      * right. simpl. split; [reflexivity|].
        eexists. split; [reflexivity|]. simpl. split; congruence.
      * left. exists (hs ++ extra). repeat split; congruence.
    + rewrite (addDestroyHandler_live h s hs Hc). left.
      exists (hs ++ [h]). simpl. auto.
  - destruct (after_call_claimed c s Hc) as (Hc' & Ho' & Hp').
    right. split; [exact Hc'|]. exists pr. repeat split; congruence.
Qed.

(** On a controller built by the constructor, after any [destroy()] and
    [_addDestroyHandler] calls: at most one promise has ever been made, and
    a [destroy()] that returns, returns that promise -- never
    [undefined]. *)
Lemma destroy_returns_the_promise_closures
    (vegaParser : option Parser) (hostFilters : list Filter) (enableExternalUrls : bool)
    (cs : list lifecycle_call) :
  let s := after_calls cs (VegaBaseView vegaParser hostFilters enableExternalUrls) in
  promises s <= 1
  /\ (forall r, fst (destroy s) = Normal r -> exists pr, r = Some pr /\ pid pr = 0)
  /\ (_destroyHandlers s = None <-> _ongoingDestroy s <> None).
Proof.
  intros s.
  assert (Hinv : lifecycle_invariant s).
  { subst s. unfold after_calls.
    assert (H0 : lifecycle_invariant (VegaBaseView vegaParser hostFilters enableExternalUrls))
      by (left; exists []; auto).
    revert H0. generalize (VegaBaseView vegaParser hostFilters enableExternalUrls).
    induction cs as [|c rest IH]; intros v Hv; [exact Hv|].
    cbn [fold_left]. apply IH. now apply after_call_invariant. }
  destruct Hinv as [(hs & Hc & Ho & Hp) | (Hc & pr & Ho & Hpid & Hp)].
  - split; [lia|]. split.
    + intros r. destruct (map_invoke_live hs s hs Hc) as (_ & _ & _ & _ & Hp1).
      rewrite destroy_unfold, Hc.
      destruct (map_invoke hs s) as [[values|e] s1]; cbn [fst snd] in *.
      * intros [= <-]. eexists. split; [reflexivity|]. simpl. congruence.
      * discriminate.
    + rewrite Hc, Ho. split; [discriminate | intros H; now contradiction H].
  - split; [lia|]. split.
    + intros r. rewrite (destroy_claimed s Hc), Ho. intros [= <-]. eauto.
    + rewrite Hc, Ho. split; [discriminate | reflexivity].
Qed.

(** *** The same for cleanup functions in general *)

Lemma general_call_throws (behave : General.Behaviour) (below g : nat)
    (s : General.Life) (fs : list nat) (e : exn) :
  General._destroyHandlers s = Some fs ->
  snd (behave (length (General.called s)) g) = Throw e ->
  existsb General.calls_destroy (fst (behave (length (General.called s)) g)) = false ->
  exists added,
    General.call behave (S below) g s
    = Some (Throw e,
            General.mkLife (Some (fs ++ added)) (General._ongoingDestroy s)
                           (General.made s) (General.called s ++ [g])).
Proof.
  intros Hchain He Hno. cbn [General.call].
  destruct (behave (length (General.called s)) g) as [ops fin]. simpl in He, Hno. subst fin.
  destruct (general_run_no_destroy behave (General.destroy behave below)
              (General.call behave below) ops Hno
              (General.mkLife (General._destroyHandlers s) (General._ongoingDestroy s) (General.made s)
                              (General.called s ++ [g]))
              fs Hchain) as (added & Hrun).
  rewrite Hrun. simpl. exists added. reflexivity.
Qed.

Lemma general_map_call_throws (behave : General.Behaviour) (below g : nat)
    (post : list nat) (e : exn) (pre : list nat) :
  (forall f, In f pre -> General.well_behaved behave f) ->
  forall (s : General.Life) (fs : list nat),
    General._destroyHandlers s = Some fs ->
    snd (behave (length (General.called s) + length pre) g) = Throw e ->
    existsb General.calls_destroy
      (fst (behave (length (General.called s) + length pre) g)) = false ->
    exists added,
      General.map_call (General.call behave (S below)) (pre ++ g :: post) s
      = Some (Throw e,
              General.mkLife (Some (fs ++ added)) (General._ongoingDestroy s)
                             (General.made s) (General.called s ++ pre ++ [g])).
Proof.
  induction pre as [|f pre IH]; intros Hwell s fs Hchain He Hno.
  - simpl in He, Hno. rewrite Nat.add_0_r in He, Hno.
    destruct (general_call_throws behave below g s fs e Hchain He Hno) as (added & Hcall).
    cbn [app General.map_call]. rewrite Hcall. exists added. reflexivity.
  - destruct (general_call_well_behaved behave below f s fs Hchain (Hwell f (or_introl eq_refl)))
      as (v & added & _ & Hcall).
    cbn [app General.map_call]. rewrite Hcall.
    destruct (IH (fun x Hx => Hwell x (or_intror Hx))
                 (General.mkLife (Some (fs ++ added)) (General._ongoingDestroy s)
                                 (General.made s) (General.called s ++ [f]))
                 (fs ++ added) eq_refl) as (added' & Hmap).
    + cbn [General.called]. rewrite length_app, Nat.add_1_r.
      simpl in He. rewrite Nat.add_succ_r in He. exact He.
    + cbn [General.called]. rewrite length_app, Nat.add_1_r.
      simpl in Hno. rewrite Nat.add_succ_r in Hno. exact Hno.
    + rewrite Hmap. cbn [General.called General._ongoingDestroy General.made].
      exists (added ++ added'). rewrite <- !app_assoc. reflexivity.
Qed.

Lemma general_destroy_throws (behave : General.Behaviour) (below g : nat)
    (s : General.Life) (fs pre post : list nat) (e : exn) :
  General._destroyHandlers s = Some fs ->
  fs = pre ++ g :: post ->
  (forall f, In f pre -> General.well_behaved behave f) ->
  snd (behave (length (General.called s) + length pre) g) = Throw e ->
  existsb General.calls_destroy
    (fst (behave (length (General.called s) + length pre) g)) = false ->
  exists added,
    General.destroy behave (S (S below)) s
    = Some (Throw e,
            General.mkLife (Some (fs ++ added)) (General._ongoingDestroy s)
                           (General.made s) (General.called s ++ pre ++ [g])).
Proof.
  intros Hchain Hfs Hwell He Hno. subst fs.
  destruct (general_map_call_throws behave below g post e pre Hwell s _ Hchain He Hno)
    as (added & Hmap).
  change (General.destroy behave (S (S below)) s)
    with (match General._destroyHandlers s with
          | Some fs0 =>
              match General.map_call (General.call behave (S below)) fs0 s with
              | Some (Normal values, s1) =>
                  Some (Normal (Some (mkPromise (General.made s1) values)),
                        General.mkLife None (Some (mkPromise (General.made s1) values))
                                       (S (General.made s1)) (General.called s1))
              | Some (Throw e, s1) => Some (Throw e, s1)
              | None => None
              end
          | None => Some (Normal (General._ongoingDestroy s), s)
          end).
  rewrite Hchain, Hmap. exists added. reflexivity.
Qed.

(** A throw inside [destroy()], for cleanup functions in general (what a
    function does may differ from call to call).  Let the chain hold, in
    this order, functions [pre] that return whenever called and have not
    called [destroy()], then a function [g] that at this call throws [e]
    (without having called [destroy()]), then any functions [post].  Then
    [destroy()] throws [e]; it has called [pre] and [g] and none of
    [post]; the chain is kept, with whatever was registered meanwhile
    appended, and no promise is made.  And when [g] throws [e] whenever it
    is called, every further [destroy()] throws [e] again and calls [pre]
    and [g] again. *)
Theorem destroy_reruns_after_throw (behave : General.Behaviour) (s : General.Life)
    (pre post : list nat) (g : nat) (e : exn) (below : nat)
    (Hchain : General._destroyHandlers s = Some (pre ++ g :: post))
    (Hpre : forall f, In f pre -> General.well_behaved behave f)
    (Hg : snd (behave (length (General.called s) + length pre) g) = Throw e)
    (Hgd : existsb General.calls_destroy
             (fst (behave (length (General.called s) + length pre) g)) = false) :
  (exists added,
     General.destroy behave (S (S below)) s
     = Some (Throw e,
             General.mkLife (Some (pre ++ g :: post ++ added)) (General._ongoingDestroy s)
                            (General.made s) (General.called s ++ pre ++ [g])))
  /\ ((forall i, snd (behave i g) = Throw e
                 /\ existsb General.calls_destroy (fst (behave i g)) = false) ->
      forall n, exists added,
        General.destroy_times behave (S (S below)) n s
        = Some (repeat (Throw e) n,
                General.mkLife (Some (pre ++ g :: post ++ added)) (General._ongoingDestroy s)
                               (General.made s)
                               (General.called s ++ concat (repeat (pre ++ [g]) n)))).
Proof.
  split.
  - destruct (general_destroy_throws behave below g s _ pre post e Hchain eq_refl Hpre Hg Hgd)
      as (added & Hd).
    exists added. rewrite Hd. rewrite <- app_assoc. reflexivity.
  - intros Hall n. clear Hg Hgd. revert s post Hchain.
    induction n as [|n IH]; intros s post Hchain.
    + exists []. simpl. rewrite !app_nil_r. destruct s; simpl in *. now subst.
    + destruct (general_destroy_throws behave below g s _ pre post e Hchain eq_refl Hpre
                  (proj1 (Hall _)) (proj2 (Hall _))) as (added & Hd).
      cbn [General.destroy_times]. rewrite Hd.
      destruct (IH (General.mkLife (Some ((pre ++ g :: post) ++ added)) (General._ongoingDestroy s)
                                   (General.made s) (General.called s ++ pre ++ [g]))
                   (post ++ added)) as (added' & Htimes).
      { simpl. rewrite <- app_assoc. reflexivity. }
      rewrite Htimes. cbn [General.called General._ongoingDestroy General.made].
      exists (added ++ added'). cbn [repeat concat].
      rewrite <- !app_assoc. reflexivity.
Qed.

Lemma general_run_keeps (behave : General.Behaviour)
    (D : General.Life -> option (completion (option Promise) * General.Life))
    (C : nat -> General.Life -> option (completion settle * General.Life))
    (HC : forall f s r s', C f s = Some (r, s') ->
            General._destroyHandlers s = None ->
            General._destroyHandlers s' = None /\ General._ongoingDestroy s' = General._ongoingDestroy s
            /\ General.made s' = General.made s)
    (ops : list General.op) :
  existsb General.calls_destroy ops = false ->
  forall s r s',
    General.run D C ops s = Some (r, s') ->
    General._ongoingDestroy s' = General._ongoingDestroy s
    /\ General.made s' = General.made s
    /\ (General._destroyHandlers s = None -> General._destroyHandlers s' = None)
    /\ (General._destroyHandlers s <> None -> General._destroyHandlers s' <> None).
Proof.
  induction ops as [|o ops IH]; intros Hno s r s' Hrun.
  - simpl in Hrun. injection Hrun as <- <-. auto.
  - destruct o as [caught|f caught]; simpl in Hno; [discriminate|].
    cbn [General.run] in Hrun. unfold General._addDestroyHandler in Hrun.
    destruct (General._destroyHandlers s) as [fs|] eqn:Hchain.
    + apply (IH Hno) in Hrun. simpl in Hrun.
      destruct Hrun as (Ho & Hm & _ & Hlive).
      split; [exact Ho|]. split; [exact Hm|]. split; [discriminate|].
      intros _. apply Hlive. discriminate.
    + assert (Hgo : forall s1,
                 General._destroyHandlers s1 = None -> General._ongoingDestroy s1 = General._ongoingDestroy s ->
                 General.made s1 = General.made s ->
                 General.run D C ops s1 = Some (r, s') ->
                 General._ongoingDestroy s' = General._ongoingDestroy s
                 /\ General.made s' = General.made s
                 /\ (@None (list nat) = None -> General._destroyHandlers s' = None)
                 /\ (@None (list nat) <> None -> General._destroyHandlers s' <> None)).
      { intros s1 Hc1 Ho1 Hm1 H1. apply (IH Hno) in H1.
        destruct H1 as (Ho & Hm & Hnone & _).
        split; [congruence|]. split; [congruence|]. split; [auto|].
        intros H; now contradiction H. }
      destruct (C f s) as [[[v|e] s1]|] eqn:Hcall; [| |discriminate].
      * destruct (HC _ _ _ _ Hcall Hchain) as (Hc1 & Ho1 & Hm1).
        exact (Hgo s1 Hc1 Ho1 Hm1 Hrun).
      * destruct (HC _ _ _ _ Hcall Hchain) as (Hc1 & Ho1 & Hm1).
        destruct caught.
        -- exact (Hgo s1 Hc1 Ho1 Hm1 Hrun).
        -- injection Hrun as <- <-.
           split; [exact Ho1|]. split; [exact Hm1|]. split; [auto|].
           intros H; now contradiction H.
Qed.

Lemma general_call_keeps (behave : General.Behaviour)
    (Hno : forall i f, existsb General.calls_destroy (fst (behave i f)) = false) (fuel : nat) :
  forall f s r s',
    General.call behave fuel f s = Some (r, s') ->
    General._ongoingDestroy s' = General._ongoingDestroy s
    /\ General.made s' = General.made s
    /\ (General._destroyHandlers s = None -> General._destroyHandlers s' = None)
    /\ (General._destroyHandlers s <> None -> General._destroyHandlers s' <> None).
Proof.
  induction fuel as [|below IH]; intros f s r s' Hcall; [discriminate|].
  cbn [General.call] in Hcall.
  specialize (Hno (length (General.called s)) f).
  destruct (behave (length (General.called s)) f) as [ops fin]. simpl in Hno.
  destruct (General.run (General.destroy behave below) (General.call behave below) ops
              (General.mkLife (General._destroyHandlers s) (General._ongoingDestroy s) (General.made s)
                              (General.called s ++ [f])))
    as [[[u|e] s1]|] eqn:Hrun; [| |discriminate].
  - injection Hcall as <- <-.
    apply (general_run_keeps behave) in Hrun; [exact Hrun| |exact Hno].
    intros f0 s0 r0 s0' H0 Hc0. destruct (IH _ _ _ _ H0) as (Ho & Hm & Hn & _). auto.
  - injection Hcall as <- <-.
    apply (general_run_keeps behave) in Hrun; [exact Hrun| |exact Hno].
    intros f0 s0 r0 s0' H0 Hc0. destruct (IH _ _ _ _ H0) as (Ho & Hm & Hn & _). auto.
Qed.

Lemma general_map_call_keeps (behave : General.Behaviour)
    (Hno : forall i f, existsb General.calls_destroy (fst (behave i f)) = false) (fuel : nat)
    (fs : list nat) :
  forall s r s',
    General.map_call (General.call behave fuel) fs s = Some (r, s') ->
    General._ongoingDestroy s' = General._ongoingDestroy s
    /\ General.made s' = General.made s
    /\ (General._destroyHandlers s <> None -> General._destroyHandlers s' <> None).
Proof.
  induction fs as [|f fs IH]; intros s r s' Hmap.
  - simpl in Hmap. injection Hmap as <- <-. auto.
  - cbn [General.map_call] in Hmap.
    destruct (General.call behave fuel f s) as [[[v|e] s1]|] eqn:Hcall; [| |discriminate].
    + destruct (general_call_keeps behave Hno fuel _ _ _ _ Hcall) as (Ho & Hm & _ & Hl).
      destruct (General.map_call (General.call behave fuel) fs s1)
        as [[[vs|e] s2]|] eqn:Hrest; [| |discriminate].
      * injection Hmap as <- <-. destruct (IH _ _ _ Hrest) as (Ho2 & Hm2 & Hl2).
        split; [congruence|]. split; [congruence|]. auto.
      * injection Hmap as <- <-. destruct (IH _ _ _ Hrest) as (Ho2 & Hm2 & Hl2).
        split; [congruence|]. split; [congruence|]. auto.
    + injection Hmap as <- <-.
      destruct (general_call_keeps behave Hno fuel _ _ _ _ Hcall) as (Ho & Hm & _ & Hl).
      auto.
Qed.

Lemma general_request_invariant (behave : General.Behaviour)
    (Hno : forall i f, existsb General.calls_destroy (fst (behave i f)) = false)
    (fuel : nat) (c : General.request) (s s' : General.Life) :
  General.after_request behave fuel c s = Some s' ->
  General.coherent s -> General.coherent s'.
Proof.
  unfold General.coherent. intros Hafter Hinv. destruct c as [|f]; simpl in Hafter.
  - destruct fuel as [|below]; [discriminate|]. cbn [General.destroy] in Hafter.
    destruct (General._destroyHandlers s) as [fs|] eqn:Hchain.
    + destruct Hinv as [(_ & Ho & Hm) | (Hc & _)]; [|discriminate].
      destruct (General.map_call (General.call behave below) fs s)
        as [[[vs|e] s1]|] eqn:Hmap; [| |discriminate].
      * injection Hafter as <-.
        destruct (general_map_call_keeps behave Hno below fs _ _ _ Hmap) as (Ho1 & Hm1 & _).
        right. simpl. split; [reflexivity|]. split; [|congruence].
        eexists. split; [reflexivity|]. simpl. congruence.
      * injection Hafter as <-.
        destruct (general_map_call_keeps behave Hno below fs _ _ _ Hmap) as (Ho1 & Hm1 & Hl1).
        assert (Hlive : General._destroyHandlers s1 <> None) by (apply Hl1; congruence).
        left. repeat split; congruence.
    + injection Hafter as <-.
      destruct Hinv as [(Hl & _) | (_ & Hpr & Hm)]; [now contradiction Hl|].
      right. auto.
  - unfold General._addDestroyHandler in Hafter.
    destruct (General._destroyHandlers s) as [fs|] eqn:Hchain.
    + injection Hafter as <-. simpl.
      destruct Hinv as [(_ & Ho & Hm) | (Hc & _)]; [|discriminate].
      left. repeat split; auto. discriminate.
    + destruct (General.call behave fuel f s) as [[[v|e] s1]|] eqn:Hcall; [| |discriminate].
      * injection Hafter as <-.
        destruct (general_call_keeps behave Hno fuel _ _ _ _ Hcall) as (Ho & Hm & Hn & _).
        destruct Hinv as [(Hl & _) | (_ & (pr & Hpr & Hid) & Hm1)]; [now contradiction Hl|].
        right. split; [auto|]. split; [exists pr; split; congruence | congruence].
      * injection Hafter as <-.
        destruct (general_call_keeps behave Hno fuel _ _ _ _ Hcall) as (Ho & Hm & Hn & _).
        destruct Hinv as [(Hl & _) | (_ & (pr & Hpr & Hid) & Hm1)]; [now contradiction Hl|].
        right. split; [auto|]. split; [exists pr; split; congruence | congruence].
Qed.

(** For cleanup functions in general that never call [destroy()]
    themselves: on a controller as the constructor leaves it, after any
    [destroy()] and [_addDestroyHandler] calls that have returned or
    thrown, at most one promise has ever been made, a [destroy()] that
    returns, returns that promise -- never [undefined] --, and the chain is
    [null] exactly when [_ongoingDestroy] is set. *)
Theorem destroy_returns_the_promise (behave : General.Behaviour) (fuel : nat)
    (cs : list General.request) (s : General.Life)
    (Hno : forall i f, existsb General.calls_destroy (fst (behave i f)) = false)
    (Hrun : General.after_requests behave fuel cs General.new_life = Some s) :
  General.made s <= 1
  /\ (forall fuel' r s',
        General.destroy behave fuel' s = Some (Normal r, s') ->
        exists pr, r = Some pr /\ pid pr = 0)
  /\ (General._destroyHandlers s = None <-> General._ongoingDestroy s <> None).
Proof.
  assert (Hinv : General.coherent s).
  { assert (H0 : General.coherent General.new_life)
      by (left; simpl; repeat split; discriminate).
    revert Hrun H0. generalize General.new_life.
    induction cs as [|c cs IH]; intros s0 Hrun H0.
    - simpl in Hrun. injection Hrun as <-. exact H0.
    - cbn [General.after_requests] in Hrun.
      destruct (General.after_request behave fuel c s0) as [s1|] eqn:H1; [|discriminate].
      apply (IH s1 Hrun).
      exact (general_request_invariant behave Hno fuel c s0 s1 H1 H0). }
  destruct Hinv as [(Hl & Ho & Hm) | (Hc & (pr & Hpr & Hid) & Hm)].
  - split; [lia|]. split.
    + intros fuel' r s' Hd. destruct fuel' as [|below]; [discriminate|].
      cbn [General.destroy] in Hd.
      destruct (General._destroyHandlers s) as [fs|] eqn:Hchain; [|now contradiction Hl].
      destruct (General.map_call (General.call behave below) fs s)
        as [[[vs|e] s1]|] eqn:Hmap; try discriminate.
      injection Hd as <- <-.
      destruct (general_map_call_keeps behave Hno below fs _ _ _ Hmap) as (_ & Hm1 & _).
      eexists. split; [reflexivity|]. simpl. congruence.
    + rewrite Ho. split; [intros H; now contradiction Hl | intros H; now contradiction H].
  - split; [lia|]. split.
    + intros fuel' r s' Hd. destruct fuel' as [|below]; [discriminate|].
      rewrite (general_destroy_claimed behave below s Hc) in Hd.
      injection Hd as <- <-. exists pr. auto.
    + rewrite Hc, Hpr. split; [discriminate | reflexivity].
Qed.

End ChainMore.

(** ** Binding a view and tearing it down *)

Section ViewFacts.

Lemma invoke_live_view (h : handler) (s : View) (hs : list handler) :
  _destroyHandlers s = Some hs ->
  if is_dom_cleanup h
  then _view (snd (invoke h s)) = None
       /\ finalized (snd (invoke h s)) = finalized s ++ bound s
       /\ _container (snd (invoke h s)) = false
       /\ _controls (snd (invoke h s)) = false
       /\ _messages (snd (invoke h s)) = None
  else _view (snd (invoke h s)) = _view s
       /\ finalized (snd (invoke h s)) = finalized s
       /\ _container (snd (invoke h s)) = _container s
       /\ _controls (snd (invoke h s)) = _controls s
       /\ _messages (snd (invoke h s)) = _messages s.
Proof.
  intros Hs. destruct h as [|name registers fin]; cbn [is_dom_cleanup].
  - cbn [invoke snd]. unfold dom_cleanup, bound. simpl.
    destruct (_view s); simpl; rewrite ?app_nil_r; auto.
  - cbn [invoke]. rewrite (register_all_live registers _ hs) by exact Hs.
    destruct fin; simpl; auto.
Qed.

Lemma map_invoke_view (hs : list handler) :
  forall (s : View) (hs0 : list handler),
    _destroyHandlers s = Some hs0 ->
    forallb returns_normally hs = true ->
    if existsb is_dom_cleanup hs
    then _view (snd (map_invoke hs s)) = None
         /\ finalized (snd (map_invoke hs s)) = finalized s ++ bound s
         /\ _container (snd (map_invoke hs s)) = false
         /\ _controls (snd (map_invoke hs s)) = false
         /\ _messages (snd (map_invoke hs s)) = None
    else _view (snd (map_invoke hs s)) = _view s
         /\ finalized (snd (map_invoke hs s)) = finalized s
         /\ _container (snd (map_invoke hs s)) = _container s
         /\ _controls (snd (map_invoke hs s)) = _controls s
         /\ _messages (snd (map_invoke hs s)) = _messages s.
Proof.
  induction hs as [|h rest IH]; intros s hs0 Hs Hret; [simpl; auto|].
  cbn [forallb] in Hret. apply andb_prop in Hret as [Hh Hrest].
  destruct (invoke_live h s hs0 Hs) as (Hr & _ & Hc & _).
  pose proof (invoke_live_view h s hs0 Hs) as Hv.
  rewrite map_invoke_cons. cbn [existsb].
  destruct (invoke h s) as [r s1]. cbn [fst snd] in *.
  unfold returns_normally in Hh. rewrite <- Hr in Hh.
  destruct r as [v|e]; [|discriminate].
  specialize (IH s1 _ Hc Hrest).
  destruct (map_invoke rest s1) as [[vs|e] s2]; cbn [fst snd] in *;
    destruct (is_dom_cleanup h); cbn [orb];
    destruct (existsb is_dom_cleanup rest);
    destruct Hv as (V1 & V2 & V3 & V4 & V5); destruct IH as (I1 & I2 & I3 & I4 & I5);
    unfold bound in *; rewrite ?V1 in *; rewrite ?app_nil_r in *;
    repeat split; congruence.
Qed.

Lemma destroy_cleans_view (s : View) (hs : list handler) (v n : nat) :
  _destroyHandlers s = Some hs ->
  forallb returns_normally hs = true ->
  existsb is_dom_cleanup hs = true ->
  _view s = Some v ->
  _view (snd (destroy_times (S n) s)) = None
  /\ finalized (snd (destroy_times (S n) s)) = finalized s ++ [v]
  /\ _container (snd (destroy_times (S n) s)) = false
  /\ _controls (snd (destroy_times (S n) s)) = false
  /\ _messages (snd (destroy_times (S n) s)) = None.
Proof.
  intros Hchain Hret Hinit Hview.
  pose proof (map_invoke_view hs s hs Hchain Hret) as Hv. rewrite Hinit in Hv.
  destruct (destroy_live s hs Hchain Hret) as (_ & _ & Hc & _).
  destruct (map_invoke_live hs s hs Hchain) as (Hr & _).
  rewrite (map_result_returns hs Hret) in Hr.
  cbn [destroy_times].
  destruct (destroy s) as [r s1] eqn:E. cbn [snd] in Hc.
  rewrite (destroy_times_claimed n s1 Hc). cbn [snd].
  rewrite destroy_unfold, Hchain in E.
  destruct (map_invoke hs s) as [r0 s0]. cbn [fst snd] in *. subst r0.
  injection E as _ <-. unfold bound in Hv. rewrite Hview in Hv. simpl. exact Hv.
Qed.

(** On an initialised controller -- one whose chain holds the clean-up
    registered by [init()] -- with handlers that all return, [destroy()]
    finalizes the bound view exactly once and unmounts container,
    controls and message list, however many times it is called. *)
Theorem destroy_finalizes_bound_view (s : View) (hs : list handler) (v n : nat)
    (Hchain : _destroyHandlers s = Some hs)
    (Hret : forallb returns_normally hs = true)
    (Hinit : existsb is_dom_cleanup hs = true)
    (Hview : _view s = Some v) :
  let s' := snd (destroy_times (S n) s) in
  _view s' = None
  /\ finalized s' = finalized s ++ [v]
  /\ _container s' = false
  /\ _controls s' = false
  /\ _messages s' = None.
Proof. exact (destroy_cleans_view s hs v n Hchain Hret Hinit Hview). Qed.

(** [setView] on a controller that has been destroyed.  With tooltips
    off it binds the handle and starts rendering, and no later
    [destroy()] finalizes that handle.  With tooltips on and the container
    gone it throws a [TypeError] -- after the handle has been bound. *)
Theorem setView_after_destroy (pv : ParserView) (tooltipCleanup : handler)
    (s : View) (v n : nat)
    (Hclaimed : _destroyHandlers s = None)
    (Hparser : _parser s <> None)
    (Hview : _view s = None)
    (Hgone : _container s = false) :
  let s' := snd (setView pv tooltipCleanup (Some v) s) in
  _view s' = Some v
  /\ finalized s' = finalized s
  /\ (tooltips pv = false ->
        fst (setView pv tooltipCleanup (Some v) s) = Normal (Some v)
        /\ _view (snd (destroy_times n s')) = Some v
        /\ finalized (snd (destroy_times n s')) = finalized s)
  /\ (tooltips pv = true ->
        exists msg, fst (setView pv tooltipCleanup (Some v) s) = Throw (TypeError msg)).
Proof.
  intros s'. subst s'.
  destruct (_parser s) as [p|] eqn:Hp; [clear Hparser | now contradiction Hparser].
  assert (E : setView pv tooltipCleanup (Some v) s =
              if tooltips pv
              then (Throw (TypeError "Cannot read properties of null (reading '0')"),
                    set_view (Some v) s)
              else (Normal (Some v), set_view (Some v) s)).
  { unfold setView. unfold bind at 1. unfold gets. rewrite Hview. cbn [same_handle].
    unfold bind at 1. unfold ret. unfold bind at 1. unfold modify.
    unfold this_parser. unfold bind at 1. unfold bind at 1. unfold gets.
    cbn [_parser set_view]. rewrite Hp. unfold ret.
    destruct (tooltips pv); [|reflexivity].
    unfold bind at 1. unfold bind at 1. unfold gets. cbn [_container set_view].
    rewrite Hgone. reflexivity. }
  rewrite E. clear E.
  destruct (tooltips pv); cbn [fst snd].
  - split; [reflexivity|]. split; [reflexivity|]. split; [discriminate|]. eauto.
  - split; [reflexivity|]. split; [reflexivity|]. split; [|discriminate].
    intros _. rewrite (destroy_times_claimed n (set_view (Some v) s) Hclaimed).
    repeat split.
Qed.

Lemma same_handle_spec (a b : option nat) : same_handle a b = true <-> a = b.
Proof.
  destruct a as [x|], b as [y|]; simpl; split; intros H; try discriminate; auto.
  - apply Nat.eqb_eq in H. now subst.
  - injection H as ->. apply Nat.eqb_refl.
Qed.



(** ** Resizing *)

(** [resize()] renders only when the size changes: once it has returned,
    a second call with the same measurements returns no render and
    leaves the size as it is. *)
Theorem resize_twice_renders_once (pv : ParserView) (container view view' : Size)
    (s : View) (r : option nat)
    (Hok : resize pv container view s = Normal (r, view')) :
  resize pv container view' s = Normal (None, view').
Proof.
  unfold resize in *. destruct (_parser s); [|discriminate].
  destruct (useResize pv); [|injection Hok as _ <-; reflexivity].
  destruct (_view s) as [v|]; [|injection Hok as _ <-; reflexivity].
  destruct (_container s); [|discriminate].
  unfold updateVegaSize in *.
  destruct (negb (width view =? Z.max 0 (width container))%Z
            || negb (height view =? Z.max 0 (height container) - heightExtraPadding)%Z) eqn:C.
  - injection Hok as _ <-. cbn [width height]. rewrite !Z.eqb_refl. reflexivity.
  - injection Hok as _ <-. rewrite C. reflexivity.
Qed.

Lemma updateVegaSize_spec (container view : Size) :
  width (snd (updateVegaSize container view)) = Z.max 0 (width container)
  /\ height (snd (updateVegaSize container view)) = (Z.max 0 (height container) - 6)%Z
  /\ (fst (updateVegaSize container view) = true <->
        snd (updateVegaSize container view) <> view).
Proof.
  unfold updateVegaSize, heightExtraPadding. destruct view as [w h]. cbn [width height].
  destruct (Z.eqb_spec w (Z.max 0 (width container))) as [Ew|Nw];
    destruct (Z.eqb_spec h (Z.max 0 (height container) - 6)) as [Eh|Nh];
    cbn [negb orb fst snd width height].
  - subst w h. split; [reflexivity|]. split; [reflexivity|].
    split; [discriminate | intros H; now contradiction H].
  - split; [reflexivity|]. split; [reflexivity|].
    split; [intros _ [= ? ?]; congruence | reflexivity].
  - split; [reflexivity|]. split; [reflexivity|].
    split; [intros _ [= ? ?]; congruence | reflexivity].
  - split; [reflexivity|]. split; [reflexivity|].
    split; [intros _ [= ? ?]; congruence | reflexivity].
Qed.

(** What [resize()] leaves behind.  A render is returned exactly when the
    size of the bound view changed; when resizing applies (the parser asks
    for it and a view is bound) the view ends up as wide as the container,
    at least 0, and 6 pixels less high than the container -- which is a
    negative height, down to -6, for a container lower than 6 pixels;
    otherwise nothing is measured or changed. *)
Theorem resize_fits_the_container (pv : ParserView) (container view view' : Size)
    (s : View) (r : option nat)
    (Hok : resize pv container view s = Normal (r, view')) :
  (r <> None <-> view' <> view)
  /\ (forall v, r = Some v -> _view s = Some v)
  /\ (useResize pv = true -> _view s <> None ->
        width view' = Z.max 0 (width container)
        /\ height view' = (Z.max 0 (height container) - 6)%Z
        /\ (0 <= width view')%Z /\ (-6 <= height view')%Z)
  /\ (useResize pv = false \/ _view s = None -> r = None /\ view' = view).
Proof.
  unfold resize in Hok. destruct (_parser s); [|discriminate].
  destruct (useResize pv).
  - destruct (_view s) as [v|].
    + destruct (_container s); [|discriminate].
      destruct (updateVegaSize_spec container view) as (Hw & Hh & Hc).
      destruct (updateVegaSize container view) as [changed sized].
      cbn [fst snd] in *. injection Hok as <- <-.
      split; [|split; [|split]].
      * destruct changed.
        -- split; [intros _; now apply Hc | discriminate].
        -- split; [intros H; now contradiction H|].
           intros H. apply Hc in H. discriminate.
      * intros v0. destruct changed; [intros [= <-]; reflexivity | discriminate].
      * intros _ _. rewrite Hw, Hh. repeat split; lia.
      * intros [H|H]; discriminate.
    + injection Hok as <- <-.
      split; [split; intros H; now contradiction H|].
      split; [discriminate|]. split; [intros _ H; now contradiction H | auto].
  - injection Hok as <- <-.
    split; [split; intros H; now contradiction H|].
    split; [discriminate|]. split; [discriminate | auto].
Qed.

End ViewFacts.

(** ** Registration of the expression functions *)

Section RegistryFacts.
Import ExpressionFunctions.

Lemma register_lookup (r : Registry) (k name : string) :
  expressionFunction (register r k) name =
    match expressionFunction r name with
    | Some f => Some f
    | None => if String.eqb k name then Some (handlerFwd k) else None
    end.
Proof.
  unfold register. destruct (expressionFunction r k) as [f|] eqn:E.
  - destruct (expressionFunction r name) as [g|] eqn:G; [reflexivity|].
    destruct (String.eqb_spec k name) as [->|]; [congruence | reflexivity].
  - simpl. destruct (String.eqb_spec k name) as [->|]; [now rewrite E|].
    destruct (expressionFunction r name); reflexivity.
Qed.

Lemma register_taken (r : Registry) (k : string) (f : exprFn) :
  expressionFunction r k = Some f -> register r k = r.
Proof. unfold register. intros ->. reflexivity. Qed.

(** Loading the module registers a forwarder under each of the four
    names that is still free, and replaces nothing: a function registered
    under any name before the load is still the one found after it, every
    other name outside the four stays undefined, and loading a second time
    changes nothing. *)
Theorem load_registers_without_overwriting (r : Registry) (name : string) :
  (forall f, expressionFunction r name = Some f ->
     expressionFunction (load r) name = Some f)
  /\ (expressionFunction r name = None ->
        expressionFunction (load r) name =
          if in_dec string_dec name vegaFunctions_keys
          then Some (handlerFwd name) else None)
  /\ load (load r) = load r.
Proof.
  assert (L : forall r0 n,
             expressionFunction (load r0) n =
               match expressionFunction r0 n with
               | Some f => Some f
               | None =>
                   if in_dec string_dec n vegaFunctions_keys
                   then Some (handlerFwd n) else None
               end).
  { intros r0 n. unfold load, vegaFunctions_keys. cbn [fold_left].
    rewrite !register_lookup.
    destruct (expressionFunction r0 n) as [f|]; [reflexivity|].
    destruct (String.eqb_spec "opensearchDashboardsAddFilter" n) as [<-|N1];
      [destruct (in_dec _ _ _) as [_|N]; [reflexivity | exfalso; apply N; simpl; auto]|].
    destruct (String.eqb_spec "opensearchDashboardsRemoveFilter" n) as [<-|N2];
      [destruct (in_dec _ _ _) as [_|N]; [reflexivity | exfalso; apply N; simpl; auto]|].
    destruct (String.eqb_spec "opensearchDashboardsRemoveAllFilters" n) as [<-|N3];
      [destruct (in_dec _ _ _) as [_|N]; [reflexivity | exfalso; apply N; simpl; auto]|].
    destruct (String.eqb_spec "opensearchDashboardsSetTimeFilter" n) as [<-|N4];
      [destruct (in_dec _ _ _) as [_|N]; [reflexivity | exfalso; apply N; simpl; auto 6]|].
    destruct (in_dec _ _ _) as [I|_]; [|reflexivity].
    simpl in I. destruct I as [H|[H|[H|[H|[]]]]]; contradiction. }
  split; [|split].
  - intros f H. rewrite L, H. reflexivity.
  - intros H. rewrite L, H. reflexivity.
  - assert (T : forall k, In k vegaFunctions_keys ->
                 exists f, expressionFunction (load r) k = Some f).
    { intros k Hk. rewrite L. destruct (expressionFunction r k); [eauto|].
      destruct (in_dec string_dec k vegaFunctions_keys); [eauto | contradiction]. }
    set (r1 := load r) in *. unfold load. unfold vegaFunctions_keys in *. cbn [fold_left].
    destruct (T "opensearchDashboardsAddFilter") as [f1 H1]; [simpl; auto|].
    destruct (T "opensearchDashboardsRemoveFilter") as [f2 H2]; [simpl; auto|].
    destruct (T "opensearchDashboardsRemoveAllFilters") as [f3 H3]; [simpl; auto|].
    destruct (T "opensearchDashboardsSetTimeFilter") as [f4 H4]; [simpl; auto 6|].
    rewrite (register_taken _ _ _ H1), (register_taken _ _ _ H2),
      (register_taken _ _ _ H3), (register_taken _ _ _ H4). reflexivity.
Qed.

End RegistryFacts.

(** ** From [init()] to [destroy()] *)

Section RoundTrip.
Context {lib : DateLib} {host : Host}.

Lemma init_binds_view (p : Parser) (hostFilters : list Filter) (enabled : bool)
    (pv : ParserView) (tooltipCleanup : handler) (v : nat) :
  truthy_str (error p) = false ->
  exists s1,
    init (inst := binding_instance pv tooltipCleanup v)
      (VegaBaseView (Some p) hostFilters enabled) = (Normal tt, s1)
    /\ _destroyHandlers s1 = Some (DomCleanup :: if tooltips pv then [tooltipCleanup] else [])
    /\ _view s1 = Some v
    /\ finalized s1 = []
    /\ invoked s1 = []
    /\ _container s1 = true
    /\ _controls s1 = true
    /\ items s1 = map (mkMessage warn) (warnings p).
Proof.
  intros Hok. set (s := VegaBaseView (Some p) hostFilters enabled).
  unfold init, bind at 1, gets. cbn [_initialized s VegaBaseView].
  unfold bind at 1, modify. unfold try_catch.
  set (s1 := set_initialized true s).
  unfold this_parser. unfold bind at 1. unfold bind at 1. unfold gets.
  cbn [_parser s1 s set_initialized VegaBaseView].
  unfold ret. unfold bind at 1. unfold modify.
  set (s2 := set_parent_direction (Some (containerDir p)) s1).
  unfold bind at 1. rewrite show_parse_warnings. rewrite Hok.
  set (s3 := match warnings p with
             | [] => s2
             | _ :: _ => set_messages (Some (items s2 ++ map (mkMessage warn) (warnings p))) s2
             end).
  assert (H3 : _destroyHandlers s3 = Some [] /\ _parser s3 = Some p /\ _view s3 = None
               /\ finalized s3 = [] /\ invoked s3 = []
               /\ items s3 = map (mkMessage warn) (warnings p)).
  { subst s3. destruct (warnings p); simpl; auto 10. }
  destruct H3 as (Hc3 & Hp3 & Hv3 & Hf3 & Hi3 & Hm3).
  unfold bind at 1. unfold modify.
  set (s4 := set_mounts true true s3).
  unfold bind at 1.
  rewrite (addDestroyHandler_live DomCleanup s4 []) by exact Hc3.
  set (s5 := set_destroyHandlers (Some ([] ++ [DomCleanup])) s4).
  unfold createViewConfig, this_parser.
  unfold bind at 1. unfold bind at 1. unfold bind at 1. unfold gets.
  assert (Hp5 : _parser s5 = Some p) by exact Hp3.
  rewrite Hp5. unfold ret. unfold bind at 1. unfold modify.
  set (s6 := set_vegaViewConfig (Some (mkViewConfig (renderer p))) s5).
  cbn [_initViewCustomizations binding_instance].
  assert (E : setView pv tooltipCleanup (Some v) s6 =
              (Normal (Some v),
               if tooltips pv
               then set_destroyHandlers (Some ([DomCleanup] ++ [tooltipCleanup]))
                      (set_view (Some v) s6)
               else set_view (Some v) s6)).
  { unfold setView. unfold bind at 1. unfold gets.
    assert (Hv6 : _view s6 = None) by exact Hv3. rewrite Hv6. cbn [same_handle].
    unfold bind at 1. unfold ret. unfold bind at 1. unfold modify.
    unfold this_parser. unfold bind at 1. unfold bind at 1. unfold gets.
    assert (Hp6 : _parser (set_view (Some v) s6) = Some p) by exact Hp3.
    rewrite Hp6. unfold ret.
    destruct (tooltips pv).
    - unfold bind at 1. unfold bind at 1. unfold gets.
      assert (Hm : _container (set_view (Some v) s6) = true) by reflexivity.
      rewrite Hm.
      rewrite (addDestroyHandler_live tooltipCleanup _ [DomCleanup]) by reflexivity.
      reflexivity.
    - reflexivity. }
  unfold bind at 1. rewrite E. unfold ret.
  eexists. split; [reflexivity|].
  destruct (tooltips pv); simpl; repeat split; auto.
Qed.

(** A round trip.  On a new controller whose parser result has no fatal
    error, [init()] with a subclass that binds a view leaves container and
    controls mounted, the parse warnings shown and the view bound; after
    [destroy()], called any number of times, that view has been finalized
    once, nothing is mounted, the message list is gone, and the handlers
    called are the clean-up of [init()] followed by the tooltip clean-up
    when tooltips are on. *)
Theorem init_then_destroy_cleans_up (p : Parser) (hostFilters : list Filter) (enabled : bool)
    (pv : ParserView) (tooltipCleanup : handler) (v n : nat)
    (Hok : truthy_str (error p) = false)
    (Hcleanup : returns_normally tooltipCleanup = true) :
  let s1 := snd (init (inst := binding_instance pv tooltipCleanup v)
                   (VegaBaseView (Some p) hostFilters enabled)) in
  let s2 := snd (destroy_times (S n) s1) in
  (_container s1 = true /\ _controls s1 = true /\ _view s1 = Some v
   /\ items s1 = map (mkMessage warn) (warnings p))
  /\ (_view s2 = None /\ finalized s2 = [v]
      /\ _container s2 = false /\ _controls s2 = false /\ _messages s2 = None
      /\ invoked s2 = DomCleanup :: (if tooltips pv then [tooltipCleanup] else [])).
Proof.
  destruct (init_binds_view p hostFilters enabled pv tooltipCleanup v Hok)
    as (s1 & E & Hc & Hv & Hf & Hi & Hm & Hm' & Hit).
  rewrite E. cbn [snd]. split; [auto|].
  set (hs := DomCleanup :: (if tooltips pv then [tooltipCleanup] else [])) in *.
  assert (Hret : forallb returns_normally hs = true).
  { subst hs. destruct (tooltips pv); simpl; rewrite ?Hcleanup; reflexivity. }
  destruct (destroy_cleans_view s1 hs v n Hc Hret eq_refl Hv) as (D1 & D2 & D3 & D4 & D5).
  rewrite Hf in D2.
  repeat split; auto.
  pose proof (destroy_live s1 hs Hc Hret) as (_ & Hinv & Hcl & _).
  cbn [destroy_times]. destruct (destroy s1) as [r s2]. cbn [snd] in *.
  rewrite (destroy_times_claimed n s2 Hcl). cbn [snd]. rewrite Hinv, Hi. reflexivity.
Qed.

End RoundTrip.

(** ** The further statements on concrete inputs *)

Section MoreInstances.
Import Doubles Samples.

Lemma parseTimeRange_ordered_witness :
  exists a b,
    instant_of (lib := stub_dates) (Raw (JStr "now-1h")) = Some a
    /\ instant_of (lib := stub_dates) (Raw (JStr "now")) = Some b
    /\ (a <= b)%Z.
Proof.
  exact (parseTimeRange_ordered (lib := stub_dates) (JStr "now") (JStr "now-1h")
           (mkRange (Raw (JStr "now-1h")) (Raw (JStr "now")) relative) eq_refl).
Defined.

Lemma setTimeFilterHandler_applies_iff_parsable_witness :
  (exists r,
     _parseTimeRange (lib := stub_dates) (JStr "now-1h") (JStr "now") = Normal r
     /\ setTimeFilterHandler (lib := stub_dates) (host := host3) (JStr "now-1h") (JStr "now") fresh
        = (Normal tt, set_applied (applied fresh ++ [TimeFilter (mode r) (from r) (to r)]) fresh))
  /\ setTimeFilterHandler (lib := stub_dates) (host := host3)
       (JStr "2020-01-01T00:00:00Z") (JStr "yesterday-ish") fresh
     = (Throw (Error (timeValuesTypeErrorMessage (lib := stub_dates)
                        (JStr "2020-01-01T00:00:00Z") (JStr "yesterday-ish"))), fresh)
  /\ setTimeFilterHandler (lib := stub_dates) (host := host3) (JNum 5) (JStr "junk") fresh
     = (Throw (TypeError "text.substring is not a function"), fresh).
Proof.
  split; [|split].
  - apply (setTimeFilterHandler_applies_iff_parsable (lib := stub_dates) (host := host3)
             (JStr "now-1h") (JStr "now") fresh). reflexivity.
  - destruct (setTimeFilterHandler_applies_iff_parsable (lib := stub_dates) (host := host3)
                (JStr "2020-01-01T00:00:00Z") (JStr "yesterday-ish") fresh) as [_ H].
    destruct (H eq_refl) as (e & -> & He & _).
    rewrite (He (Some (mkMoment true 1577836800000)) (Some invalid_moment) eq_refl eq_refl).
    reflexivity.
  - destruct (setTimeFilterHandler_applies_iff_parsable (lib := stub_dates) (host := host3)
                (JNum 5) (JStr "junk") fresh) as [_ H].
    destruct (H eq_refl) as (e & -> & _ & He & _).
    rewrite (He (TypeError "text.substring is not a function") eq_refl).
    reflexivity.
Defined.

Lemma sanitize_blocks_every_json_uri_witness :
  UrlAccessGate.sanitize unit string stub_sanitize false
    (JObj [("url", JStr "https://example.org/a.json"); ("bypassToken", JStr "Symbol()")]) tt
  = Throw (Error UrlAccessGate.externalUrlsAreNotEnabledErrorMessage).
Proof.
  apply (sanitize_blocks_every_json_uri stub_sanitize
           (JObj [("url", JStr "https://example.org/a.json"); ("bypassToken", JStr "Symbol()")])
           tt eq_refl).
  discriminate.
Defined.

Lemma removeFilterHandler_effects_witness :
  snd (removeFilterHandler (host := host1) (JObj []) (JStr "logs") filtered)
    = set_filters [] filtered
  /\ filters (snd (removeFilterHandler (host := stubborn_host) (JObj []) (JStr "logs") filtered))
     = filters filtered
  /\ items (snd (removeFilterHandler (host := stubborn_host) (JObj []) (JStr "logs") filtered))
     = [mkMessage err "filter is pinned"].
Proof.
  pose proof (removeFilterHandler_effects (host := host1)
                (JObj []) (JStr "logs") filtered "logs-id" eq_refl) as H1.
  pose proof (removeFilterHandler_effects (host := stubborn_host)
                (JObj []) (JStr "logs") filtered "logs-id" eq_refl) as H2.
  cbv zeta in H1, H2.
  destruct H1 as (_ & _ & _ & _ & H1 & _).
  destruct H2 as (_ & _ & _ & _ & _ & H2).
  split.
  - exact (H1 (buildQueryFilter (JObj []) "logs-id" JUndefined) [] eq_refl eq_refl).
  - exact (H2 (buildQueryFilter (JObj []) "logs-id" JUndefined) (Error "filter is pinned")
             eq_refl eq_refl).
Defined.


Lemma vegaFunctions_all_declared_witness :
  exists f, VegaBaseView_method (lib := stub_dates) (host := host3) "setTimeFilterHandler" = Some f.
Proof.
  apply (vegaFunctions_all_declared (lib := stub_dates) (host := host3)
           "opensearchDashboardsSetTimeFilter").
  reflexivity.
Defined.

Lemma init_throws_iff_initialized_witness :
  init (host := host3) (inst := base_instance (lib := stub_dates) (host := host3)) initialised
  = (Throw (Error EmptyString), initialised).
Proof.
  apply (init_throws_iff_initialized (host := host3)
           (inst := base_instance (lib := stub_dates) (host := host3)) initialised).
  reflexivity.
Defined.

Lemma init_stops_on_parse_error_witness :
  init (host := host3) (inst := base_instance (lib := stub_dates) (host := host3))
    (VegaBaseView (Some failed_parser) [] false)
  = (Normal tt,
     set_messages
       (Some [mkMessage warn "uses a deprecated option"; mkMessage err "Unexpected token"])
       (set_parent_direction (Some "column")
          (set_initialized true (VegaBaseView (Some failed_parser) [] false)))).
Proof.
  apply (init_stops_on_parse_error (host := host3)
           (inst := base_instance (lib := stub_dates) (host := host3))
           (VegaBaseView (Some failed_parser) [] false) failed_parser "Unexpected token"
           eq_refl eq_refl eq_refl).
  discriminate.
Defined.

Lemma init_after_destroy_unmounts_witness :
  _container
    (snd (init (host := host3) (inst := base_instance (lib := stub_dates) (host := host3))
            (snd (destroy
                    (VegaBaseView (Some (stub_parser ["uses a deprecated option"] false))
                       [] false)))))
  = false.
Proof.
  apply (init_after_destroy_unmounts (host := host3)
           (inst := base_instance (lib := stub_dates) (host := host3))
           (snd (destroy
                   (VegaBaseView (Some (stub_parser ["uses a deprecated option"] false))
                      [] false)))
           (stub_parser ["uses a deprecated option"] false)
           eq_refl eq_refl eq_refl eq_refl).
  intros s1. reflexivity.
Defined.

Lemma destroy_reruns_after_throw_closures_witness :
  invoked (snd (destroy_times 2 (fresh_with [noop 1; throwing 2; noop 3])))
  = [noop 1; throwing 2; noop 1; throwing 2].
Proof.
  destruct (destroy_reruns_after_throw_closures (fresh_with [noop 1; throwing 2; noop 3])
              [noop 1; throwing 2; noop 3] 2 eq_refl eq_refl) as (e & _ & _ & H & _).
  exact H.
Defined.

Lemma destroy_reruns_after_throw_witness :
  option_map fst (General.destroy General.throws_always 2
                    (General.mkLife (Some [1; 2; 3]) None 0 []))
    = Some (Throw (Error "cleanup failed"))
  /\ exists added,
       General.destroy_times General.throws_always 2 2
         (General.mkLife (Some [1; 2; 3]) None 0 [])
       = Some ([Throw (Error "cleanup failed"); Throw (Error "cleanup failed")],
               General.mkLife (Some (1 :: 2 :: 3 :: added)) None 0 [1; 2; 1; 2]).
Proof.
  assert (Hpre : forall f, In f [1] -> General.well_behaved General.throws_always f).
  { intros f [<-|[]] i. split; [eexists|]; reflexivity. }
  assert (Hall : forall i,
             snd (General.throws_always i 2) = Throw (Error "cleanup failed")
             /\ existsb General.calls_destroy (fst (General.throws_always i 2)) = false).
  { intros i. split; reflexivity. }
  destruct (destroy_reruns_after_throw General.throws_always
              (General.mkLife (Some [1; 2; 3]) None 0 []) [1] [3] 2
              (Error "cleanup failed") 0 eq_refl Hpre (proj1 (Hall 1)) (proj2 (Hall 1)))
    as ((added & Hone) & Hmany).
  split.
  - rewrite Hone. reflexivity.
  - destruct (Hmany Hall 2) as (added' & Htwo). exists added'. exact Htwo.
Defined.

(** With a function that throws only the first time, the second
    [destroy()] succeeds, having called the functions before it a second
    time. *)
Lemma destroy_after_one_throw :
  General.destroy_times General.throws_once 2 2 (General.mkLife (Some [1; 2; 3]) None 0 [])
  = Some ([Throw (Error "cleanup failed");
           Normal (Some (mkPromise 0 [Value; Value; Value]))],
          General.mkLife None (Some (mkPromise 0 [Value; Value; Value])) 1 [1; 2; 1; 2; 3]).
Proof. reflexivity. Qed.

Lemma completion_promise_is_final_witness :
  destroy (after_calls [CallAddDestroyHandler (noop 2); CallDestroy]
             (snd (destroy (fresh_with [noop 1]))))
  = (Normal (Some (mkPromise 0 [Value])),
     after_calls [CallAddDestroyHandler (noop 2); CallDestroy]
       (snd (destroy (fresh_with [noop 1])))).
Proof.
  apply (completion_promise_is_final [CallAddDestroyHandler (noop 2); CallDestroy]
           (snd (destroy (fresh_with [noop 1]))) eq_refl).
Defined.

Lemma destroy_returns_the_promise_closures_witness :
  exists pr, Some (mkPromise 0 [Value]) = Some pr /\ pid pr = 0.
Proof.
  apply (destroy_returns_the_promise_closures (Some (stub_parser [] false)) [] false
           [CallAddDestroyHandler (noop 1); CallDestroy; CallDestroy]).
  reflexivity.
Defined.

Lemma destroy_returns_the_promise_witness :
  General.made (General.mkLife None (Some (mkPromise 0 [Value])) 1 [1; 2; 8]) <= 1
  /\ exists pr, Some (mkPromise 0 [Value]) = Some pr /\ pid pr = 0.
Proof.
  assert (Hno : forall i f,
             existsb General.calls_destroy (fst (General.throws_always i f)) = false).
  { intros i f. unfold General.throws_always. destruct (Nat.eqb f 2); reflexivity. }
  destruct (destroy_returns_the_promise General.throws_always 3
              [General.Registers 1; General.Destroys; General.Registers 2; General.Destroys]
              (General.mkLife None (Some (mkPromise 0 [Value])) 1 [1; 2; 8])
              Hno eq_refl) as (Hmade & Hret & _).
  split; [exact Hmade|].
  apply (Hret 1 (Some (mkPromise 0 [Value]))
              (General.mkLife None (Some (mkPromise 0 [Value])) 1 [1; 2; 8])).
  reflexivity.
Defined.

Lemma destroy_finalizes_bound_view_witness :
  finalized (snd (destroy_times 2 rendering)) = [4]
  /\ _view (snd (destroy_times 2 rendering)) = None.
Proof.
  pose proof (destroy_finalizes_bound_view rendering [DomCleanup; noop 7] 4 1
                eq_refl eq_refl eq_refl eq_refl) as (Hv & Hf & _).
  split; [exact Hf | exact Hv].
Defined.

Lemma setView_after_destroy_witness :
  _view (snd (destroy_times 3
                (snd (setView tooltips_off (noop 7) (Some 5) (snd (destroy initialised))))))
    = Some 5
  /\ exists msg,
       fst (setView tooltips_on (noop 7) (Some 5) (snd (destroy initialised)))
       = Throw (TypeError msg).
Proof.
  pose proof (setView_after_destroy tooltips_off (noop 7) (snd (destroy initialised)) 5 3
                eq_refl) as H1.
  pose proof (setView_after_destroy tooltips_on (noop 7) (snd (destroy initialised)) 5 0
                eq_refl) as H2.
  split.
  - apply H1; [discriminate | reflexivity | reflexivity | reflexivity].
  - apply H2; [discriminate | reflexivity | reflexivity | reflexivity].
Defined.


Lemma resize_twice_renders_once_witness :
  resize tooltips_on (mkSize 800 600) (mkSize 800 594) rendering
  = Normal (None, mkSize 800 594).
Proof.
  apply (resize_twice_renders_once tooltips_on (mkSize 800 600) (mkSize 0 0) (mkSize 800 594)
           rendering (Some 4)).
  reflexivity.
Defined.

Lemma resize_fits_the_container_witness :
  height (mkSize 640 (-6)) = (Z.max 0 (height (mkSize 640 0)) - 6)%Z.
Proof.
  apply (resize_fits_the_container tooltips_on (mkSize 640 0) (mkSize 300 150) (mkSize 640 (-6))
           rendering (Some 4) eq_refl).
  - reflexivity.
  - discriminate.
Defined.

Lemma load_registers_without_overwriting_witness :
  ExpressionFunctions.expressionFunction
    (ExpressionFunctions.load
       [("opensearchDashboardsAddFilter", ExpressionFunctions.Foreign 1)])
    "opensearchDashboardsAddFilter"
  = Some (ExpressionFunctions.Foreign 1).
Proof.
  apply (load_registers_without_overwriting
           [("opensearchDashboardsAddFilter", ExpressionFunctions.Foreign 1)]
           "opensearchDashboardsAddFilter").
  reflexivity.
Defined.

Lemma init_then_destroy_cleans_up_witness :
  finalized
    (snd (destroy_times 2
            (snd (init (host := host3)
                    (inst := binding_instance (lib := stub_dates) (host := host3)
                               tooltips_on (noop 7) 4)
                    (VegaBaseView (Some (stub_parser ["uses a deprecated option"] false))
                       [] false)))))
  = [4].
Proof.
  apply (init_then_destroy_cleans_up (lib := stub_dates) (host := host3)
           (stub_parser ["uses a deprecated option"] false) [] false
           tooltips_on (noop 7) 4 1 eq_refl eq_refl).
Defined.

End MoreInstances.
